(** * QingLong integration: token lifecycle manager and task client

    A shallow embedding of [QingLongClient] (custom_components/
    qinglong-assistant/__init__.py), of the constants of const.py and of
    the task-list helpers of sensor.py, with the properties of the token
    refresh, of [async_run_task] / [async_get_tasks] and of the task-list
    extraction.

    The client is asyncio code: a method runs atomically up to its next
    [await] on the network and is resumed later with the outcome of the
    HTTP call, on whatever the client's fields are by then.  Methods are
    therefore embedded as coroutines over the client record (type [coro]):
    either finished, or suspended on a request with a continuation. *)

From Stdlib Require Import ZArith List String Ascii Bool Lia QArith_base DecimalString DecimalPos.
From Stdlib Require Import Sorted Permutation.
Import ListNotations.
Local Close Scope Q_scope.
Local Open Scope string_scope.
Local Open Scope Z_scope.

(** ** Python values as they come out of [response.json()] *)

Module Py.

(** A Python [float]: a finite double is a rational number; [json.loads]
    also yields the two infinities and NaN. *)
Inductive pyfloat : Type :=
| FFinite (q : Q)
| FInf (negative : bool)
| FNan.

#[warnings="-register-all"]
Inductive json : Type :=
| JNull
| JBool (b : bool)
| JInt (n : Z)
| JFloat (f : pyfloat)
| JStr (s : string)
| JList (l : list json)
| JDict (d : list (string * json)).

(** The exceptions that occur in the client: those of the HTTP layer
    (timeout of [async_timeout], aiohttp's client errors, a body that is
    not JSON), those of Python's dynamic checks and those of the time
    functions.  All of them derive from [Exception]. *)
Inductive exn : Type :=
| TimeoutError
| ClientError
| ContentTypeError
| JSONDecodeError
| AttributeError
| TypeError
| ValueError
| OverflowError
| OSError.

Inductive result (A : Type) : Type :=
| Ok (a : A)
| Raise (e : exn).
Arguments Ok {A} a.
Arguments Raise {A} e.

(** [bool(v)]: the truth value of [v] in [if v], [not v], [a and b]. *)
Definition truthy (v : json) : bool :=
  match v with
  | JNull => false
  | JBool b => b
  | JInt n => negb (n =? 0)
  | JFloat (FFinite q) => negb (Qnum q =? 0)
  | JFloat _ => true
  | JStr s => negb (String.eqb s "")
  | JList l => match l with [] => false | _ => true end
  | JDict d => match d with [] => false | _ => true end
  end.

(** [v == n] for an [int] literal [n]; [bool] is a subclass of [int]. *)
Definition eq_int (v : json) (n : Z) : bool :=
  match v with
  | JInt m => m =? n
  | JBool b => Z.b2z b =? n
  | JFloat (FFinite q) => Qnum q =? n * Z.pos (Qden q)
  | _ => false
  end.

(** [v > n]: ordering against an [int] is defined on numbers only. *)
Definition gt_int (v : json) (n : Z) : result bool :=
  match v with
  | JInt m => Ok (m >? n)
  | JBool b => Ok (Z.b2z b >? n)
  | JFloat (FFinite q) => Ok (Qnum q >? n * Z.pos (Qden q))
  | JFloat (FInf negative) => Ok (negb negative)
  | JFloat FNan => Ok false
  | _ => Raise TypeError
  end.

(** [int(v)]: truncation toward zero on floats.  On a [str] Python parses
    a numeral; the client reaches [int] only after [v > current_time] has
    succeeded, hence never with a [str], and that case is given the
    result of a string that is not a numeral. *)
Definition to_int (v : json) : result Z :=
  match v with
  | JInt m => Ok m
  | JBool b => Ok (Z.b2z b)
  | JFloat (FFinite q) => Ok (Z.quot (Qnum q) (Z.pos (Qden q)))
  | JFloat (FInf _) => Raise OverflowError
  | JFloat FNan => Raise ValueError
  | JStr _ => Raise ValueError
  | _ => Raise TypeError
  end.

(** A [dict] keeps its items in insertion order. *)
Fixpoint lookup (k : string) (d : list (string * json)) : option json :=
  match d with
  | [] => None
  | (k', v) :: d' => if String.eqb k k' then Some v else lookup k d'
  end.

(** [v.get(k, default)]: only a [dict] has the method. *)
Definition get (v : json) (k : string) (default : json) : result json :=
  match v with
  | JDict d => Ok (match lookup k d with Some x => x | None => default end)
  | _ => Raise AttributeError
  end.

Definition is_dict (v : json) : bool :=
  match v with JDict _ => true | _ => false end.

Definition is_list (v : json) : bool :=
  match v with JList _ => true | _ => false end.

(** [k in v] for a [dict] [v]. *)
Definition contains (v : json) (k : string) : bool :=
  match v with
  | JDict d => match lookup k d with Some _ => true | None => false end
  | _ => false
  end.

End Py.
Import Py.

(** ** const.py *)

Definition API_AUTH : string := "/open/auth/token".
Definition API_CRONS : string := "/open/crons".
Definition API_CRONS_RUN : string := "/open/crons/run".
Definition TOKEN_REFRESH_THRESHOLD : Z := 86400.
Definition TOKEN_EXPIRY_BUFFER : Z := 3600.

(** ** The client object *)

(** [self._session]: [None], an open [aiohttp.ClientSession], or a closed
    one. *)
Inductive session : Type :=
| NoSession
| OpenSession
| ClosedSession.

Record QingLongClient : Type := mkClient {
  _host : string;
  _port : Z;
  _ssl : bool;
  _token : json;
  _token_expires : Z;
  _client_id : string;
  _client_secret : string;
  _session : session;
  _base_url : string;
  _refresh_lock : bool;
  _last_refresh_time : Z
}.

Definition set_token (v : json) (c : QingLongClient) : QingLongClient :=
  mkClient (_host c) (_port c) (_ssl c) v (_token_expires c) (_client_id c)
    (_client_secret c) (_session c) (_base_url c) (_refresh_lock c)
    (_last_refresh_time c).

Definition set_token_expires (t : Z) (c : QingLongClient) : QingLongClient :=
  mkClient (_host c) (_port c) (_ssl c) (_token c) t (_client_id c)
    (_client_secret c) (_session c) (_base_url c) (_refresh_lock c)
    (_last_refresh_time c).

Definition set_session (s : session) (c : QingLongClient) : QingLongClient :=
  mkClient (_host c) (_port c) (_ssl c) (_token c) (_token_expires c)
    (_client_id c) (_client_secret c) s (_base_url c) (_refresh_lock c)
    (_last_refresh_time c).

Definition set_refresh_lock (b : bool) (c : QingLongClient) : QingLongClient :=
  mkClient (_host c) (_port c) (_ssl c) (_token c) (_token_expires c)
    (_client_id c) (_client_secret c) (_session c) (_base_url c) b
    (_last_refresh_time c).

Definition set_last_refresh_time (t : Z) (c : QingLongClient) : QingLongClient :=
  mkClient (_host c) (_port c) (_ssl c) (_token c) (_token_expires c)
    (_client_id c) (_client_secret c) (_session c) (_base_url c)
    (_refresh_lock c) t.

(** [QingLongClient.__init__]; the [hass] handle is never used by the
    client and is left out. *)
Definition __init__ (host : string) (port : Z) (ssl : bool) (token : json)
    (token_expires : Z) (client_id client_secret : string) : QingLongClient :=
  {| _host := host;
     _port := port;
     _ssl := ssl;
     _token := token;
     _token_expires := token_expires;
     _client_id := client_id;
     _client_secret := client_secret;
     _session := NoSession;
     _base_url := (if ssl then "https" else "http") ++ "://" ++ host ++ ":"
                  ++ NilZero.string_of_int (Z.to_int port);
     _refresh_lock := false;
     _last_refresh_time := 0 |}.

(** ** Requests and their outcomes *)

(** The three calls of the API surface, with what the client puts in
    them: the query parameters of the token exchange, the bearer token of
    the [Authorization] header and the JSON body of the run request. *)
Inductive request : Type :=
| GetAuth (url : string) (client_id client_secret : string)
| PutRun (url : string) (bearer : json) (body : list string)
| GetCrons (url : string) (bearer : json).

(** What one HTTP call comes to before the 10-second timeout or at it: an
    exception out of [session.get] / [session.put], or a response with
    its status, whose [await response.json()] yields the parsed body or
    raises.  The client touches none of its fields between the two
    awaits, so they are one suspension of the coroutine. *)
Inductive net_outcome : Type :=
| NetRaise (e : exn)
| NetResponse (status : Z) (body : result json).

Definition is_auth (r : request) : bool :=
  match r with GetAuth _ _ _ => true | _ => false end.

(** ** Coroutines over the client *)

Inductive coro (A : Type) : Type :=
| Fin (self : QingLongClient) (r : result A)
| Await (self : QingLongClient) (req : request)
        (k : net_outcome -> QingLongClient -> coro A).
Arguments Fin {A} self r.
Arguments Await {A} self req k.

Definition async (A : Type) : Type := QingLongClient -> coro A.

Module Async.

Definition ret {A} (a : A) : async A := fun self => Fin self (Ok a).

Definition raise {A} (e : exn) : async A := fun self => Fin self (Raise e).

Definition lift {A} (r : result A) : async A := fun self => Fin self r.

Fixpoint bind_coro {A B} (c : coro A) (f : A -> async B) : coro B :=
  match c with
  | Fin self (Ok a) => f a self
  | Fin self (Raise e) => Fin self (Raise e)
  | Await self req k => Await self req (fun o self' => bind_coro (k o self') f)
  end.

Definition bind {A B} (m : async A) (f : A -> async B) : async B :=
  fun self => bind_coro (m self) f.

(** Read [self]. *)
Definition this : async QingLongClient := fun self => Fin self (Ok self).

(** Assign to a field of [self]. *)
Definition assign (f : QingLongClient -> QingLongClient) : async unit :=
  fun self => Fin (f self) (Ok tt).

(** Suspend on an HTTP call. *)
Definition await (req : request) : async net_outcome :=
  fun self => Await self req (fun o self' => Fin self' (Ok o)).

(** [try: m  except Exception as err: h err]. *)
Fixpoint except_coro {A} (c : coro A) (h : exn -> async A) : coro A :=
  match c with
  | Fin self (Ok a) => Fin self (Ok a)
  | Fin self (Raise e) => h e self
  | Await self req k => Await self req (fun o self' => except_coro (k o self') h)
  end.

Definition try_except {A} (m : async A) (h : exn -> async A) : async A :=
  fun self => except_coro (m self) h.

(** [try: m  finally: self.<field> = ...]: the assignment runs on every
    way out of [m], return or raise. *)
Fixpoint finally_coro {A} (c : coro A) (f : QingLongClient -> QingLongClient)
    : coro A :=
  match c with
  | Fin self r => Fin (f self) r
  | Await self req k => Await self req (fun o self' => finally_coro (k o self') f)
  end.

Definition try_finally {A} (m : async A) (f : QingLongClient -> QingLongClient)
    : async A :=
  fun self => finally_coro (m self) f.

End Async.
Import Async.

Notation "x <- m ;; k" := (bind m (fun x => k))
  (at level 61, m at next level, right associativity).
Notation "m ;;; k" := (bind m (fun _ => k))
  (at level 61, right associativity).

(** The response object inside [async with session.get(...) as response]. *)
Record response : Type := mkResponse {
  status : Z;
  body : result json
}.

(** [async with session.<method>(...) as response]. *)
Definition http (req : request) : async response :=
  o <- await req ;;
  match o with
  | NetRaise e => raise e
  | NetResponse st b => ret (mkResponse st b)
  end.

(** [await response.json()]. *)
Definition response_json (r : response) : async json := lift (body r).

(** ** The time functions of the platform *)

(** [time.strftime('%Y-%m-%d %H:%M:%S', time.localtime(t))], the one
    expression through which the client renders a timestamp.  Which
    timestamps [time.localtime] accepts is the platform's affair: out of
    its range it raises [OverflowError] or [OSError]. *)
Class Platform : Type := {
  strftime_localtime : Z -> result string
}.

Section Client.

Context {platform : Platform}.

(** ** QingLongClient methods *)

Definition _get_session : async unit :=
  self <- this ;;
  match _session self with
  | OpenSession => ret tt
  | _ => assign (set_session OpenSession)
  end.

(** [_refresh_token_if_needed], with the clock reading
    [int(time.time())] of its first line as [current_time].  Of the log
    calls only the one that can raise is kept: the [_LOGGER.info] after
    the assignment of the expiry renders the new expiry with
    [time.localtime] as one of its arguments. *)
Definition _refresh_token_if_needed (current_time : Z) : async bool :=
  self <- this ;;
  if _token_expires self - current_time >? TOKEN_REFRESH_THRESHOLD then ret true
  else if _refresh_lock self then ret false
  else if current_time - _last_refresh_time self <? 300 then ret false
  else
    assign (set_refresh_lock true) ;;;
    try_finally
      (try_except
         (_get_session ;;;
          self <- this ;;
          let url := _base_url self ++ API_AUTH in
          response <- http (GetAuth url (_client_id self) (_client_secret self)) ;;
          if negb (status response =? 200) then ret false
          else
            data <- response_json response ;;
            code <- lift (get data "code" JNull) ;;
            if negb (eq_int code 200) then ret false
            else
              token_data <- lift (get data "data" (JDict [])) ;;
              new_token <- lift (get token_data "token" JNull) ;;
              if negb (truthy new_token) then ret false
              else
                expiration <- lift (get token_data "expiration" JNull) ;;
                in_future <- (if truthy expiration
                              then lift (gt_int expiration current_time)
                              else ret false) ;;
                (if in_future : bool
                 then e <- lift (to_int expiration) ;;
                      assign (set_token_expires e) ;;;
                      self <- this ;;
                      rendered <- lift (strftime_localtime (_token_expires self)) ;;
                      ret tt
                 else assign (set_token_expires (current_time + 2592000))) ;;;
                assign (set_token new_token) ;;;
                assign (set_last_refresh_time current_time) ;;;
                ret true)
         (fun err => ret false))
      (set_refresh_lock false).

(** [async_run_task]; [now] is the clock reading of the refresh call on
    its first line. *)
Definition async_run_task (task_id : string) (now : Z) : async bool :=
  try_except
    (_refresh_token_if_needed now ;;;
     _get_session ;;;
     self <- this ;;
     let url := _base_url self ++ API_CRONS_RUN in
     response <- http (PutRun url (_token self) [task_id]) ;;
     if status response =? 401 then
       assign (set_last_refresh_time 0) ;;;
       ret false
     else if negb (status response =? 200) then ret false
     else
       result <- response_json response ;;
       code <- lift (get result "code" JNull) ;;
       if negb (eq_int code 200) then ret false
       else ret true)
    (fun err => ret false).

(** [async_get_tasks]; [{}] is [JDict []]. *)
Definition async_get_tasks (now : Z) : async json :=
  try_except
    (_refresh_token_if_needed now ;;;
     _get_session ;;;
     self <- this ;;
     let url := _base_url self ++ API_CRONS in
     response <- http (GetCrons url (_token self)) ;;
     if status response =? 401 then
       assign (set_last_refresh_time 0) ;;;
       ret (JDict [])
     else if negb (status response =? 200) then ret (JDict [])
     else
       data <- response_json response ;;
       code <- lift (get data "code" JNull) ;;
       if negb (eq_int code 200) then ret (JDict [])
       else ret data)
    (fun err => ret (JDict [])).

(** [async_close]. *)
Definition async_close : async unit :=
  self <- this ;;
  match _session self with
  | OpenSession => assign (set_session ClosedSession)
  | _ => ret tt
  end.

(** ** A call that runs alone

    [run c env] drives a coroutine to its end when nothing else touches
    the client in between: each request is answered by [env] and the
    coroutine resumes on the fields it left.  The result comes with the
    requests made, in order. *)
Fixpoint run {A} (c : coro A) (env : request -> net_outcome)
    : QingLongClient * result A * list request :=
  match c with
  | Fin self r => (self, r, [])
  | Await self req k =>
      let '(self', r, tr) := run (k (env req) self) env in
      (self', r, req :: tr)
  end.

Definition final {A} (x : QingLongClient * result A * list request)
    : QingLongClient := fst (fst x).

Definition returned {A} (x : QingLongClient * result A * list request)
    : result A := snd (fst x).

Definition requests {A} (x : QingLongClient * result A * list request)
    : list request := snd x.

(** ** sensor.py: the task list of a payload *)

(** [QingLongTasksSensor._extract_tasks_list]. *)
Definition _extract_tasks_list (tasks_data : json) : json :=
  match tasks_data with
  | JDict d =>
      match lookup "data" d with
      | Some inner_data =>
          match inner_data with
          | JDict d' =>
              match lookup "data" d' with
              | Some tasks => tasks          (* inner_data.get("data", []) *)
              | None => JList []
              end
          | JList _ => inner_data
          | _ => JList []
          end
      | None => JList []
      end
  | _ => JList []
  end.

Record attributes : Type := mkAttributes {
  total_tasks : Z;
  commands : list json;
  enabled_tasks : Z;
  disabled_tasks : Z;
  last_updated : string;
  polling_interval : string
}.

(** One turn of the loop [for task in tasks_list] . *)
Definition count_task (a : attributes) (task : json) : attributes :=
  match task with
  | JDict d =>
      let command := match lookup "command" d with Some c => c | None => JStr "" end in
      let is_disabled := match lookup "isDisabled" d with Some v => v | None => JNull end in
      if truthy is_disabled then
        mkAttributes (total_tasks a) (commands a ++ [command]) (enabled_tasks a)
          (disabled_tasks a + 1) (last_updated a) (polling_interval a)
      else
        mkAttributes (total_tasks a) (commands a ++ [command]) (enabled_tasks a + 1)
          (disabled_tasks a) (last_updated a) (polling_interval a)
  | _ => a
  end.

(** [QingLongTasksSensor._get_tasks_attributes]; [stamp] is the formatted
    local time [time.strftime(...)]. *)
Definition _get_tasks_attributes (stamp : string) (tasks_list : list json)
    : attributes :=
  fold_left count_task tasks_list
    (mkAttributes (Z.of_nat (List.length tasks_list)) [] 0 0 stamp "30秒").

(** ** The refresh guards, and what a response says *)

(** The three guards of [_refresh_token_if_needed] all let the call
    through: the exchange is performed. *)
Definition exchange_due (c : QingLongClient) (now : Z) : Prop :=
  _token_expires c - now <= TOKEN_REFRESH_THRESHOLD /\
  _refresh_lock c = false /\
  300 <= now - _last_refresh_time c.

(** The request of the token exchange. *)
Definition auth_request (c : QingLongClient) : request :=
  GetAuth (_base_url c ++ API_AUTH) (_client_id c) (_client_secret c).

(** HTTP status 200. *)
Definition http_ok (o : net_outcome) : bool :=
  match o with
  | NetResponse st _ => st =? 200
  | NetRaise _ => false
  end.

Definition http_status (o : net_outcome) : option Z :=
  match o with
  | NetResponse st _ => Some st
  | NetRaise _ => None
  end.

(** The parsed body, when there is one and it is a JSON object. *)
Definition payload (o : net_outcome) : option (list (string * json)) :=
  match o with
  | NetResponse _ (Ok (JDict d)) => Some d
  | _ => None
  end.

Definition field (k : string) (d : list (string * json)) : json :=
  match lookup k d with Some v => v | None => JNull end.

(** Application code 200: the body is an object whose ["code"] equals
    200. *)
Definition app_code_ok (o : net_outcome) : bool :=
  match payload o with
  | Some d => eq_int (field "code" d) 200
  | None => false
  end.

(** The ["data"] object of the body of a token exchange. *)
Definition token_data (o : net_outcome) : option (list (string * json)) :=
  match payload o with
  | Some d =>
      match lookup "data" d with
      | Some (JDict td) => Some td
      | Some _ => None
      | None => Some []
      end
  | None => None
  end.

(** The token field of the response; [JNull] when it is missing. *)
Definition token_of (o : net_outcome) : json :=
  match token_data o with
  | Some td => field "token" td
  | None => JNull
  end.

(** The expiration field of the response; [JNull] when it is missing. *)
Definition expiration_of (o : net_outcome) : json :=
  match token_data o with
  | Some td => field "expiration" td
  | None => JNull
  end.

(** The exchange fails: HTTP status not 200, or application code not 200,
    or token missing or empty. *)
Definition exchange_failed (o : net_outcome) : Prop :=
  http_ok o = false \/ app_code_ok o = false \/ truthy (token_of o) = false.

(** ** The event loop: calls of one client instance, interleaved *)

Inductive call : Type :=
| CallRefresh
| CallRunTask (task_id : string)
| CallGetTasks
| CallClose.

(** A coroutine parked on its request. *)
Inductive suspended : Type :=
| Suspended {A : Type} (req : request)
            (k : net_outcome -> QingLongClient -> coro A).

Record loop : Type := mkLoop {
  client : QingLongClient;
  waiting : list suspended
}.

(** A coroutine has run to its next suspension or to its end. *)
Definition settle {A} (c : coro A) (rest : list suspended) : loop :=
  match c with
  | Fin self _ => mkLoop self rest
  | Await self req k => mkLoop self (Suspended req k :: rest)
  end.

(** A caller invokes a method at clock reading [now]. *)
Definition start (m : call) (now : Z) (l : loop) : loop :=
  match m with
  | CallRefresh => settle (_refresh_token_if_needed now (client l)) (waiting l)
  | CallRunTask task_id => settle (async_run_task task_id now (client l)) (waiting l)
  | CallGetTasks => settle (async_get_tasks now (client l)) (waiting l)
  | CallClose => settle (async_close (client l)) (waiting l)
  end.

Fixpoint drop_nth {A} (i : nat) (l : list A) : list A :=
  match l, i with
  | [], _ => []
  | _ :: t, O => t
  | h :: t, S j => h :: drop_nth j t
  end.

(** The HTTP call of the [i]-th parked coroutine comes to [o]. *)
Definition resume (i : nat) (o : net_outcome) (l : loop) : loop :=
  match nth_error (waiting l) i with
  | Some (Suspended req k) => settle (k o (client l)) (drop_nth i (waiting l))
  | None => l
  end.

Inductive step : loop -> loop -> Prop :=
| step_start m now l : step l (start m now l)
| step_resume i o l : step l (resume i o l).

(** The loops one gets to from a client that was just constructed
    ([_refresh_lock] is [False] then). *)
Inductive reachable : loop -> Prop :=
| reach_init c : _refresh_lock c = false -> reachable (mkLoop c [])
| reach_step l l' : reachable l -> step l l' -> reachable l'.

Definition on_auth (s : suspended) : bool :=
  match s with Suspended req _ => is_auth req end.

(** Token exchanges in flight. *)
Definition auth_in_flight (l : loop) : nat :=
  List.length (filter on_auth (waiting l)).

(** ** Running the combinators *)

Section Run.

Context {A B : Type} (env : request -> net_outcome).

Lemma run_bind (c : coro A) (f : A -> async B) :
  run (bind_coro c f) env =
  let '(s, r, tr) := run c env in
  match r with
  | Ok a => let '(s', r', tr') := run (f a s) env in (s', r', (tr ++ tr')%list)
  | Raise e => (s, Raise e, tr)
  end.
Proof.
  induction c as [s [a | e] | s req k IH]; cbn.
  - destruct (run (f a s) env) as [[s' r'] tr']. reflexivity.
  - reflexivity.
  - rewrite IH. destruct (run (k (env req) s) env) as [[s1 [a | e]] tr1].
    + destruct (run (f a s1) env) as [[s' r'] tr']. reflexivity.
    + reflexivity.
Qed.

Lemma run_except (c : coro A) (h : exn -> async A) :
  run (except_coro c h) env =
  let '(s, r, tr) := run c env in
  match r with
  | Ok a => (s, Ok a, tr)
  | Raise e => let '(s', r', tr') := run (h e s) env in (s', r', (tr ++ tr')%list)
  end.
Proof.
  induction c as [s [a | e] | s req k IH]; cbn.
  - reflexivity.
  - destruct (run (h e s) env) as [[s' r'] tr']. reflexivity.
  - rewrite IH. destruct (run (k (env req) s) env) as [[s1 [a | e]] tr1].
    + reflexivity.
    + destruct (run (h e s1) env) as [[s' r'] tr']. reflexivity.
Qed.

Lemma run_finally (c : coro A) (f : QingLongClient -> QingLongClient) :
  run (finally_coro c f) env =
  let '(s, r, tr) := run c env in (f s, r, tr).
Proof.
  induction c as [s r | s req k IH]; cbn.
  - reflexivity.
  - rewrite IH. destruct (run (k (env req) s) env) as [[s1 r1] tr1]. reflexivity.
Qed.

End Run.

(** ** The token exchange *)

Lemma set_session_same c : set_session (_session c) c = c.
Proof. destruct c; reflexivity. Qed.

(** The client once [_get_session] has run. *)
Definition opened (c : QingLongClient) : QingLongClient :=
  set_session OpenSession c.

Lemma get_session_opened s : _get_session s = Fin (opened s) (Ok tt).
Proof.
  unfold _get_session, bind, this, opened. cbn.
  destruct (_session s) eqn:E; cbn; try reflexivity.
  rewrite <- E, set_session_same. reflexivity.
Qed.

(** How the success branch picks the new expiry [e] from the expiration
    field; an expiry taken from the response is rendered for the log. *)
Definition expiry_choice (expiration : json) (now e : Z) : Prop :=
  (truthy expiration = true /\ gt_int expiration now = Ok true /\
   to_int expiration = Ok e /\ exists text, strftime_localtime e = Ok text) \/
  ((truthy expiration = false \/ gt_int expiration now = Ok false) /\
   e = now + 2592000).

(** The expiry [e] taken from the response cannot be rendered:
    [time.localtime] raises [x]. *)
Definition expiry_unrendered (expiration : json) (now e : Z) (x : exn) : Prop :=
  truthy expiration = true /\ gt_int expiration now = Ok true /\
  to_int expiration = Ok e /\ strftime_localtime e = Raise x.

(** The expiration field makes the comparison or the conversion raise. *)
Definition expiry_rejected (expiration : json) (now : Z) : Prop :=
  truthy expiration = true /\
  ((exists x, gt_int expiration now = Raise x) \/
   (gt_int expiration now = Ok true /\ exists x, to_int expiration = Raise x)).

(** The token, expiry and attempt time as the success branch writes them. *)
Definition renewed (tok : json) (e now : Z) (s : QingLongClient) : QingLongClient :=
  set_last_refresh_time now (set_token tok (set_token_expires e s)).

(** What the resumed refresh does on outcome [o] when the client is [s]
    by then: its result and the client it leaves. *)
Inductive conclusion (now : Z) (o : net_outcome) (s : QingLongClient)
    : result bool -> QingLongClient -> Prop :=
| concl_failed :
    exchange_failed o \/ expiry_rejected (expiration_of o) now ->
    conclusion now o s (Ok false) (set_refresh_lock false s)
| concl_renewed e :
    http_ok o = true -> app_code_ok o = true -> truthy (token_of o) = true ->
    expiry_choice (expiration_of o) now e ->
    conclusion now o s (Ok true)
      (set_refresh_lock false (renewed (token_of o) e now s))
| concl_unrendered e x :
    http_ok o = true -> app_code_ok o = true -> truthy (token_of o) = true ->
    expiry_unrendered (expiration_of o) now e x ->
    conclusion now o s (Ok false)
      (set_refresh_lock false (set_token_expires e s)).

Ltac hit :=
  first [ assumption | reflexivity
        | eexists; first [eassumption | reflexivity] ].

Ltac crunch :=
  repeat (cbn -[append Z.gtb Z.ltb Z.eqb Z.mul Z.quot Z.add] in *;
    match goal with
    | |- context [match lookup ?k ?d with _ => _ end] => destruct (lookup k d) eqn:?
    | |- context [get ?v _ _] => is_var v; destruct v
    | |- context [match gt_int ?a ?b with _ => _ end] => destruct (gt_int a b) eqn:?
    | |- context [match to_int ?a with _ => _ end] => destruct (to_int a) eqn:?
    | |- context [match strftime_localtime ?a with _ => _ end] =>
        destruct (strftime_localtime a) eqn:?
    | |- context [match ?x with _ => _ end] => is_var x; destruct x
    | |- context [if ?b then _ else _] => destruct b eqn:?
    end);
  cbn -[append Z.gtb Z.ltb Z.eqb Z.mul Z.quot Z.add] in *.

Lemma refresh_fresh c now :
  _token_expires c - now > TOKEN_REFRESH_THRESHOLD ->
  _refresh_token_if_needed now c = Fin c (Ok true).
Proof.
  intros H. unfold _refresh_token_if_needed, bind, this. simpl.
  destruct (Z.gtb_spec (_token_expires c - now) TOKEN_REFRESH_THRESHOLD);
    [reflexivity | lia].
Qed.

Lemma refresh_locked c now :
  _token_expires c - now <= TOKEN_REFRESH_THRESHOLD ->
  _refresh_lock c = true ->
  _refresh_token_if_needed now c = Fin c (Ok false).
Proof.
  intros H L. unfold _refresh_token_if_needed, bind, this. simpl.
  destruct (Z.gtb_spec (_token_expires c - now) TOKEN_REFRESH_THRESHOLD); [lia|].
  rewrite L. reflexivity.
Qed.

Lemma refresh_backoff c now :
  _token_expires c - now <= TOKEN_REFRESH_THRESHOLD ->
  _refresh_lock c = false ->
  now - _last_refresh_time c < 300 ->
  _refresh_token_if_needed now c = Fin c (Ok false).
Proof.
  intros H L B. unfold _refresh_token_if_needed, bind, this. simpl.
  destruct (Z.gtb_spec (_token_expires c - now) TOKEN_REFRESH_THRESHOLD); [lia|].
  rewrite L.
  destruct (Z.ltb_spec (now - _last_refresh_time c) 300); [reflexivity | lia].
Qed.

(** Past the guards the call sets the flag, opens the session and parks
    on the token exchange; resumed with [o] on any client [s], it ends
    there and then as [conclusion] says. *)
Lemma refresh_suspends c now :
  exchange_due c now ->
  exists k,
    _refresh_token_if_needed now c =
      Await (opened (set_refresh_lock true c)) (auth_request c) k /\
    forall o s, exists r s', k o s = Fin s' r /\ conclusion now o s r s'.
Proof.
  intros (H & L & B).
  unfold _refresh_token_if_needed, bind, this. simpl.
  destruct (Z.gtb_spec (_token_expires c - now) TOKEN_REFRESH_THRESHOLD); [lia|].
  rewrite L. destruct (Z.ltb_spec (now - _last_refresh_time c) 300); [lia|].
  unfold try_finally, try_except, bind, this, assign.
  cbn -[append _get_session]. rewrite get_session_opened.
  cbn -[append]. eexists. split; [reflexivity|].
  intros o s.
  assert (F : forall r, exchange_failed o \/ expiry_rejected (expiration_of o) now ->
            r = Ok false ->
            exists r' s', Fin (set_refresh_lock false s) r = Fin s' r' /\
                          conclusion now o s r' s').
  { intros r Hf ->. do 2 eexists. split; [reflexivity|]. constructor. exact Hf. }
  unfold exchange_failed, expiry_rejected, app_code_ok, token_of, expiration_of,
    token_data, payload, http_ok, field in F.
  destruct o as [ex | st b]; [apply F; auto|].
  cbn -[append] in *. destruct (st =? 200) eqn:St; [|apply F; auto].
  destruct b as [j | ex]; [|apply F; auto].
  destruct j; try (apply F; auto).
  crunch.
  all: repeat match goal with
         | H : negb _ = false |- _ => apply negb_false_iff in H
         | H : negb _ = true |- _ => apply negb_true_iff in H
         end.
  all: try (apply F; [|reflexivity];
            first [ left; left; hit
                  | left; right; left; hit
                  | left; right; right; hit
                  | right; split; [hit|];
                    first [ left; hit | right; split; [hit|]; hit ] ]).
  all: do 2 eexists; (split; [reflexivity|]).
  all: match goal with
       | |- conclusion _ ?o ?s _ (set_refresh_lock false
              (set_last_refresh_time _ (set_token ?t (set_token_expires ?e _)))) =>
           replace t with (token_of o)
             by (unfold token_of, token_data, payload, field; cbn;
                 repeat match goal with H : lookup _ _ = _ |- _ => rewrite H end;
                 reflexivity);
           apply (concl_renewed now o s e)
       | |- conclusion _ ?o ?s _ (set_refresh_lock false (set_token_expires ?e _)) =>
           eapply (concl_unrendered now o s e)
       end.
  all: unfold expiry_choice, expiry_unrendered, app_code_ok, token_of,
         expiration_of, token_data, payload, http_ok, field; cbn;
       repeat match goal with H : lookup _ _ = _ |- _ => rewrite H end;
       eauto 8.
Qed.

(** Either a guard answers at once, leaving the client as it is, or the
    exchange is due. *)
Lemma refresh_guarded c now :
  (exists b, _refresh_token_if_needed now c = Fin c (Ok b)) \/ exchange_due c now.
Proof.
  destruct (Z_gt_le_dec (_token_expires c - now) TOKEN_REFRESH_THRESHOLD) as [G | G].
  { left. exists true. apply refresh_fresh. exact G. }
  destruct (_refresh_lock c) eqn:L.
  { left. exists false. apply refresh_locked; assumption. }
  destruct (Z_lt_le_dec (now - _last_refresh_time c) 300) as [B | B].
  { left. exists false. apply refresh_backoff; assumption. }
  right. repeat split; assumption.
Qed.

Lemma unlock_opened c :
  _refresh_lock c = false ->
  set_refresh_lock false (opened (set_refresh_lock true c)) = opened c.
Proof. destruct c; cbn; intros ->; reflexivity. Qed.

Lemma unlock_renewed tok e now c :
  _refresh_lock c = false ->
  set_refresh_lock false (renewed tok e now (opened (set_refresh_lock true c)))
  = renewed tok e now (opened c).
Proof. destruct c; cbn; intros ->; reflexivity. Qed.

(** The call that runs alone and performs the exchange: one request, and
    the conclusion on the client it parked. *)
Lemma refresh_run_due c now env :
  exchange_due c now ->
  exists r s',
    run (_refresh_token_if_needed now c) env = (s', r, [auth_request c]) /\
    conclusion now (env (auth_request c)) (opened (set_refresh_lock true c)) r s'.
Proof.
  intros D. destruct (refresh_suspends c now D) as (k & E & K).
  rewrite E. cbn.
  destruct (K (env (auth_request c)) (opened (set_refresh_lock true c)))
    as (r & s' & -> & C).
  cbn. eauto.
Qed.

(** The refresh never raises. *)
Lemma refresh_returns c now env :
  exists b, returned (run (_refresh_token_if_needed now c) env) = Ok b.
Proof.
  destruct (refresh_guarded c now) as [(b & E) | D].
  - rewrite E. cbn. eauto.
  - destruct (refresh_run_due c now env D) as (r & s' & -> & C).
    destruct C; cbn; eauto.
Qed.

(** ** Single flight on the event loop *)

Section Quiet.

Context {A : Type}.

(** [quiet b c]: the coroutine [c] shows the client with the flag at [b],
    makes no token exchange, and whenever it is resumed leaves the flag
    as it finds it. *)
Inductive quiet : bool -> coro A -> Prop :=
| quiet_fin s r : quiet (_refresh_lock s) (Fin s r)
| quiet_await s req k :
    is_auth req = false ->
    (forall o s', quiet (_refresh_lock s') (k o s')) ->
    quiet (_refresh_lock s) (Await s req k).

(** [holding c]: [c] has set the flag and is parked on the token
    exchange; resumed on any client, it clears the flag and is quiet from
    then on. *)
Inductive holding : coro A -> Prop :=
| holding_await s req k :
    _refresh_lock s = true ->
    is_auth req = true ->
    (forall o s', quiet false (k o s')) ->
    holding (Await s req k).

End Quiet.

Lemma quiet_bind {A B} b (c : coro A) (f : A -> async B) :
  quiet b c ->
  (forall a s, quiet (_refresh_lock s) (f a s)) ->
  quiet b (bind_coro c f).
Proof.
  intros Q F. induction Q as [s [a | e] | s req k N K IH]; cbn.
  - apply F.
  - constructor.
  - constructor; auto.
Qed.

Lemma quiet_except {A} b (c : coro A) (h : exn -> async A) :
  quiet b c ->
  (forall e s, quiet (_refresh_lock s) (h e s)) ->
  quiet b (except_coro c h).
Proof.
  intros Q F. induction Q as [s [a | e] | s req k N K IH]; cbn.
  - constructor.
  - apply F.
  - constructor; auto.
Qed.

Lemma holding_bind {A B} (c : coro A) (f : A -> async B) :
  holding c ->
  (forall a s, quiet (_refresh_lock s) (f a s)) ->
  holding (bind_coro c f).
Proof.
  intros [s req k L N K] F. cbn. constructor; auto.
  intros o s'. apply quiet_bind; auto.
Qed.

Lemma holding_except {A} (c : coro A) (h : exn -> async A) :
  holding c ->
  (forall e s, quiet (_refresh_lock s) (h e s)) ->
  holding (except_coro c h).
Proof.
  intros [s req k L N K] F. cbn. constructor; auto.
  intros o s'. apply quiet_except; auto.
Qed.

(** A method is well behaved when, called on any client, it is quiet or
    it finds the flag clear and takes it. *)
Definition behaved {A} (m : async A) : Prop :=
  forall s, quiet (_refresh_lock s) (m s) \/
            (_refresh_lock s = false /\ holding (m s)).

Lemma refresh_behaved now : behaved (_refresh_token_if_needed now).
Proof.
  intros s. destruct (refresh_guarded s now) as [(b & E) | D].
  - left. rewrite E. constructor.
  - right. split; [apply D|].
    destruct (refresh_suspends s now D) as (k & E & K). rewrite E.
    constructor; try reflexivity.
    intros o s'. destruct (K o s') as (r & s'' & -> & C).
    destruct C; apply (quiet_fin (set_refresh_lock false _)).
Qed.

(** What follows the refresh in [async_run_task] and [async_get_tasks]
    never touches the flag: the session, one request that is not the
    token exchange, and at most the reset of the attempt time. *)
Lemma quiet_fin_eq {A} (s s' : QingLongClient) (r : result A) :
  _refresh_lock s' = _refresh_lock s -> quiet (_refresh_lock s) (Fin s' r).
Proof. intros <-. constructor. Qed.

Lemma quiet_await_eq {A} (s s' : QingLongClient) req
    (k : net_outcome -> QingLongClient -> coro A) :
  _refresh_lock s' = _refresh_lock s ->
  is_auth req = false ->
  (forall o s1, quiet (_refresh_lock s1) (k o s1)) ->
  quiet (_refresh_lock s) (Await s' req k).
Proof. intros <- N K. constructor; assumption. Qed.

Ltac quiet_tail :=
  unfold bind, this, assign, http, await, response_json, lift, ret, raise;
  cbn -[append _get_session]; rewrite ?get_session_opened; cbn -[append];
  repeat first
    [ apply quiet_fin_eq; reflexivity
    | apply quiet_await_eq; [reflexivity | reflexivity | intros ? ?]
    | progress cbn -[append]
    | match goal with
      | |- context [match ?x with _ => _ end] => destruct x
      | |- context [if ?b then _ else _] => destruct b
      end ].

Lemma run_task_behaved task_id now : behaved (async_run_task task_id now).
Proof.
  intros s. unfold async_run_task, try_except.
  unfold bind at 1.
  destruct (refresh_behaved now s) as [Q | (L & H)].
  - left. apply quiet_except; [|intros; constructor].
    apply quiet_bind; [exact Q|]. intros _ s1. quiet_tail.
  - right. split; [exact L|].
    apply holding_except; [|intros; constructor].
    apply holding_bind; [exact H|]. intros _ s1. quiet_tail.
Qed.

Lemma get_tasks_behaved now : behaved (async_get_tasks now).
Proof.
  intros s. unfold async_get_tasks, try_except.
  unfold bind at 1.
  destruct (refresh_behaved now s) as [Q | (L & H)].
  - left. apply quiet_except; [|intros; constructor].
    apply quiet_bind; [exact Q|]. intros _ s1. quiet_tail.
  - right. split; [exact L|].
    apply holding_except; [|intros; constructor].
    apply holding_bind; [exact H|]. intros _ s1. quiet_tail.
Qed.

Lemma close_behaved : behaved async_close.
Proof.
  intros s. left. unfold async_close, bind, this, assign, ret. cbn.
  destruct (_session s); cbn; apply quiet_fin_eq; reflexivity.
Qed.

(** The invariant of the loop: every parked coroutine is either the
    holder of the flag, parked on the token exchange, or quiet; and the
    flag is set exactly when one exchange is in flight. *)
Definition parked_ok (p : suspended) : Prop :=
  match p with
  | Suspended req k =>
      if is_auth req
      then forall o s, quiet false (k o s)
      else forall o s, quiet (_refresh_lock s) (k o s)
  end.

Definition single_flight (l : loop) : Prop :=
  Forall parked_ok (waiting l) /\
  auth_in_flight l = (if _refresh_lock (client l) then 1 else 0)%nat.

Lemma settle_quiet {A} (c : coro A) rest b :
  quiet b c ->
  Forall parked_ok rest ->
  List.length (filter on_auth rest) = (if b then 1 else 0)%nat ->
  single_flight (settle c rest).
Proof.
  intros Q F N. destruct Q as [s r | s req k NA K]; cbn.
  - split; assumption.
  - split.
    + constructor; [|assumption]. cbn. rewrite NA. exact K.
    + unfold auth_in_flight. cbn. rewrite NA. exact N.
Qed.

Lemma settle_holding {A} (c : coro A) rest :
  holding c ->
  Forall parked_ok rest ->
  List.length (filter on_auth rest) = 0%nat ->
  single_flight (settle c rest).
Proof.
  intros [s req k L IA K] F N. cbn. split.
  - constructor; [|assumption]. cbn. rewrite IA. exact K.
  - unfold auth_in_flight. cbn. rewrite IA, L. cbn. rewrite N. reflexivity.
Qed.

Lemma settle_behaved {A} (m : async A) l :
  behaved m -> single_flight l ->
  single_flight (settle (m (client l)) (waiting l)).
Proof.
  intros Bm (F & N). destruct (Bm (client l)) as [Q | (L & H)].
  - eapply settle_quiet; eauto.
  - apply settle_holding; auto.
    unfold auth_in_flight in N. rewrite L in N. exact N.
Qed.

Lemma Forall_drop_nth {A} (P : A -> Prop) i (l : list A) :
  Forall P l -> Forall P (drop_nth i l).
Proof.
  intros F. revert i. induction F as [| x l Px F IH]; intros [| i]; cbn;
    try constructor; auto.
Qed.

Lemma filter_drop_nth {A} (f : A -> bool) i (l : list A) p :
  nth_error l i = Some p ->
  List.length (filter f l) =
  (List.length (filter f (drop_nth i l)) + (if f p then 1 else 0))%nat.
Proof.
  revert i. induction l as [| x l IH]; intros [| i] E; cbn in *; try discriminate.
  - injection E as ->. destruct (f p); cbn; lia.
  - specialize (IH i E). destruct (f x); cbn; lia.
Qed.

Lemma start_single_flight m now l :
  single_flight l -> single_flight (start m now l).
Proof.
  intros I. destruct m; cbn.
  - apply (settle_behaved (_refresh_token_if_needed now)); [apply refresh_behaved | exact I].
  - apply (settle_behaved (async_run_task task_id now)); [apply run_task_behaved | exact I].
  - apply (settle_behaved (async_get_tasks now)); [apply get_tasks_behaved | exact I].
  - apply (settle_behaved async_close); [apply close_behaved | exact I].
Qed.

Lemma resume_single_flight i o l :
  single_flight l -> single_flight (resume i o l).
Proof.
  intros (F & N). unfold resume.
  destruct (nth_error (waiting l) i) as [[A req k] |] eqn:E; [|split; assumption].
  assert (P : parked_ok (Suspended req k)).
  { rewrite Forall_forall in F. apply F. eapply nth_error_In; eauto. }
  pose proof (filter_drop_nth on_auth i (waiting l) _ E) as C.
  unfold auth_in_flight in N. rewrite N in C. cbn in P, C.
  destruct (is_auth req).
  - apply (settle_quiet _ _ false (P o (client l))).
    + apply Forall_drop_nth. exact F.
    + destruct (_refresh_lock (client l)); lia.
  - apply (settle_quiet _ _ _ (P o (client l))).
    + apply Forall_drop_nth. exact F.
    + lia.
Qed.

Lemma reachable_single_flight l : reachable l -> single_flight l.
Proof.
  induction 1 as [c L | l l' R IH S].
  - split; [constructor|]. unfold auth_in_flight. cbn. rewrite L. reflexivity.
  - destruct S; [apply start_single_flight | apply resume_single_flight]; exact IH.
Qed.

(** Resuming the coroutine that is parked on the token exchange clears
    the flag, whatever the outcome and whatever happened to the client in
    the meantime. *)
Lemma resume_auth_unlocks i o l req A (k : net_outcome -> QingLongClient -> coro A) :
  single_flight l ->
  nth_error (waiting l) i = Some (Suspended req k) ->
  is_auth req = true ->
  _refresh_lock (client (resume i o l)) = false.
Proof.
  intros (F & N) E IA. unfold resume. rewrite E.
  assert (P : parked_ok (Suspended req k)).
  { rewrite Forall_forall in F. apply F. eapply nth_error_In; eauto. }
  cbn in P. rewrite IA in P. specialize (P o (client l)).
  inversion P; subst; cbn; congruence.
Qed.

(** ** Sample data *)

(** A client as [async_setup_entry] constructs it, whose stored token
    expires at 1700003600. *)
Definition sample_client : QingLongClient :=
  __init__ "192.168.1.10" 5700 false (JStr "old-token") 1700003600
    "client-id" "client-secret".

(** The body of a token exchange: [{code: 200, data: {token, expiration}}]. *)
Definition token_body (token expiration : json) : json :=
  JDict [("code", JInt 200);
         ("data", JDict [("token", token); ("expiration", expiration)])].

(** An environment that answers the token exchange with [o_auth] and the
    task request with [o_call]. *)
Definition answering (o_auth o_call : net_outcome) : request -> net_outcome :=
  fun req => if is_auth req then o_auth else o_call.

(** The request of [async_run_task] on client [s]. *)
Definition run_request (s : QingLongClient) (task_id : string) : request :=
  PutRun (_base_url s ++ API_CRONS_RUN) (_token s) [task_id].

(** The request of [async_get_tasks] on client [s]. *)
Definition tasks_request (s : QingLongClient) : request :=
  GetCrons (_base_url s ++ API_CRONS) (_token s).

(** The payload [{code: 200, data: {data: [t1, ..., tn], total: N}}]. *)
Definition tasks_payload (tasks : list json) (total : Z) : json :=
  JDict [("code", JInt 200);
         ("data", JDict [("data", JList tasks); ("total", JInt total)])].

(** [{id: "1", command: "task foo.js", isDisabled: 0}]. *)
Definition sample_task : json :=
  JDict [("id", JStr "1"); ("command", JStr "task foo.js"); ("isDisabled", JInt 0)].

(** The expiry the success branch assigns, by the shape of the expiration
    field: the field itself when it is present (not null, not zero, not
    false) and greater than the current time, its integer part when it
    is fractional, and 30 days from now otherwise. *)
Definition expiry_from_response (expiration : json) (now : Z) : Z :=
  match expiration with
  | JInt n =>
      if negb (n =? 0) && (n >? now) then n else now + 2592000
  | JBool b =>
      if b && (1 >? now) then 1 else now + 2592000
  | JFloat (FFinite q) =>
      if negb (Qnum q =? 0) && (Qnum q >? now * Z.pos (Qden q))
      then Z.quot (Qnum q) (Z.pos (Qden q))
      else now + 2592000
  | _ => now + 2592000
  end.

(** The expiration field makes neither the comparison with the clock nor
    the conversion to [int] raise: it is absent, or falsy, or a number
    other than plus infinity. *)
Definition comparable_expiration (expiration : json) : bool :=
  match expiration with
  | JNull | JBool _ | JInt _ => true
  | JFloat (FInf false) => false
  | JFloat _ => true
  | JStr s => String.eqb s ""
  | JList l => match l with [] => true | _ => false end
  | JDict d => match d with [] => true | _ => false end
  end.

(** The platform renders the expiry that is taken from the response (the
    success branch formats it for its log line). *)
Definition renders (expiration : json) (now : Z) : Prop :=
  truthy expiration = true ->
  gt_int expiration now = Ok true ->
  exists text,
    strftime_localtime (expiry_from_response expiration now) = Ok text.

(** ** Properties of the token refresh *)

(** C5. Fresh-token fast path: on every client whose token expiry is more
    than 86400 seconds (the refresh threshold of const.py) beyond the
    current time, the refresh finishes at once with [True], makes no
    request and leaves every field of the client as it was; run alone
    against any environment it returns [True] with an empty list of
    requests.  The flag plays no part, and the client left by a
    successful refresh with more than 24 hours to live is such a
    client. *)
Theorem fresh_token_fast_path (c : QingLongClient) (now : Z)
    (env : request -> net_outcome) :
  _token_expires c - now > 86400 ->
  TOKEN_REFRESH_THRESHOLD = 86400 /\
  _refresh_token_if_needed now c = Fin c (Ok true) /\
  run (_refresh_token_if_needed now c) env = (c, Ok true, []).
Proof.
  intros H. split; [reflexivity|].
  rewrite (refresh_fresh c now H). split; reflexivity.
Qed.

(** C6. Backoff guard: on every client whose token expiry is at most 24
    hours away, with no refresh in flight, whose last recorded refresh
    time is less than 300 seconds before the current time, the refresh
    finishes at once with [False], makes no request and leaves the client
    (the token with it) as it was. *)
Theorem backoff_guard (c : QingLongClient) (now : Z)
    (env : request -> net_outcome) :
  _token_expires c - now <= 86400 ->
  _refresh_lock c = false ->
  now - _last_refresh_time c < 300 ->
  _refresh_token_if_needed now c = Fin c (Ok false) /\
  run (_refresh_token_if_needed now c) env = (c, Ok false, []).
Proof.
  intros H L B. rewrite (refresh_backoff c now H L B). split; reflexivity.
Qed.

(** C3. Failed-refresh atomicity: when the refresh performs the exchange
    and the HTTP status is not 200, or the application code is not 200,
    or the token field is missing or empty, the call makes that one
    request, returns [False], and leaves the stored token and its expiry
    unchanged; of the whole client only the session has been opened. *)
Theorem failed_refresh_keeps_token (c : QingLongClient) (now : Z)
    (env : request -> net_outcome) :
  exchange_due c now ->
  exchange_failed (env (auth_request c)) ->
  let x := run (_refresh_token_if_needed now c) env in
  requests x = [auth_request c] /\
  returned x = Ok false /\
  _token (final x) = _token c /\
  _token_expires (final x) = _token_expires c /\
  final x = opened c.
Proof.
  intros D F x. subst x.
  destruct (refresh_run_due c now env D) as (r & s' & -> & C).
  destruct D as (_ & L & _).
  destruct C as [_ | e H1 H2 H3 _ | e x H1 H2 H3 _].
  - cbn. rewrite (unlock_opened c L). repeat split; reflexivity.
  - destruct F as [F | [F | F]]; congruence.
  - destruct F as [F | [F | F]]; congruence.
Qed.

Lemma quot_not_before (num now : Z) (den : positive) :
  num > now * Z.pos den -> now <= Z.quot num (Z.pos den).
Proof.
  intros H. destruct (Z_le_gt_dec 0 num) as [P | N].
  - rewrite Z.quot_div_nonneg by lia.
    apply Z.div_le_lower_bound; lia.
  - replace num with (- (- num)) by lia.
    rewrite Z.quot_opp_l by lia.
    rewrite Z.quot_div_nonneg by lia.
    assert (- num / Z.pos den <= - now); [|lia].
    apply Z.div_le_upper_bound; lia.
Qed.

Lemma comparable_not_rejected expiration now :
  comparable_expiration expiration = true -> ~ expiry_rejected expiration now.
Proof.
  intros C (T & [(x & G) | (G & x & I)]);
    destruct expiration as [| b | n | [q | [|] |] | s | [|] | [|]];
    cbn in *; try discriminate; rewrite C in T; discriminate.
Qed.

Lemma taken_from_response expiration now e :
  truthy expiration = true ->
  gt_int expiration now = Ok true ->
  to_int expiration = Ok e ->
  e = expiry_from_response expiration now.
Proof.
  intros T G I.
  destruct expiration as [| b | n | [q | neg |] | s | l | d]; cbn in *;
    try discriminate.
  - injection G as G. injection I as <-. subst b. cbn in G. rewrite G. reflexivity.
  - injection G as G. injection I as <-. rewrite T, G. reflexivity.
  - injection G as G. injection I as <-. rewrite T, G. reflexivity.
Qed.

Lemma default_from_response expiration now :
  truthy expiration = false \/ gt_int expiration now = Ok false ->
  expiry_from_response expiration now = now + 2592000.
Proof.
  intros [T | G];
    destruct expiration as [| b | n | [q | neg |] | s | l | d]; cbn in *;
    try discriminate; try reflexivity.
  all: try (subst b; reflexivity).
  all: try (rewrite T; reflexivity).
  all: injection G as G.
  all: first [ rewrite G, andb_false_r; reflexivity
             | destruct b; cbn in *; rewrite ?G; reflexivity ].
Qed.

Lemma expiry_from_response_bounds expiration now :
  now <= expiry_from_response expiration now /\
  ((forall q, expiration <> JFloat (FFinite q)) ->
   now < expiry_from_response expiration now).
Proof.
  destruct expiration as [| b | n | [q | neg |] | s | l | d]; cbn; try lia.
  - destruct b; cbn; [destruct (Z.gtb_spec 1 now)|]; lia.
  - destruct (Z.eqb_spec n 0); destruct (Z.gtb_spec n now); cbn; lia.
  - split.
    + destruct (negb (Qnum q =? 0)); cbn; [|lia].
      destruct (Z.gtb_spec (Qnum q) (now * Z.pos (Qden q))); [|lia].
      apply quot_not_before. lia.
    + intros H. destruct (H q). reflexivity.
Qed.

(** C2 (as amended). Successful-refresh postcondition: when the refresh
    performs the exchange and it succeeds (HTTP status 200, application
    code 200, non-empty token field), with an expiration field that is
    absent, falsy or a number other than plus infinity, and with an
    expiry that the platform's [time.localtime] can render when it is
    taken from the response, the call returns [True] and the token, its
    expiry and the last refresh time are written together in the one
    step that ends the call, nothing else of the client changing but the
    opened session: the token is the response's, the recorded time is
    the clock reading of the call, and the expiry is the expiration
    field when it is present and greater than the current time (its
    integer part when it is fractional) and the current time plus
    2592000 otherwise.  The new expiry is never before the current time,
    and it is strictly in the future unless the field is a fraction. *)
Theorem successful_refresh_postcondition (c : QingLongClient) (now : Z)
    (env : request -> net_outcome) :
  exchange_due c now ->
  http_ok (env (auth_request c)) = true ->
  app_code_ok (env (auth_request c)) = true ->
  truthy (token_of (env (auth_request c))) = true ->
  comparable_expiration (expiration_of (env (auth_request c))) = true ->
  renders (expiration_of (env (auth_request c))) now ->
  let o := env (auth_request c) in
  let x := run (_refresh_token_if_needed now c) env in
  let e := expiry_from_response (expiration_of o) now in
  requests x = [auth_request c] /\
  returned x = Ok true /\
  final x = renewed (token_of o) e now (opened c) /\
  _token (final x) = token_of o /\
  _token_expires (final x) = e /\
  _last_refresh_time (final x) = now /\
  now <= e /\
  ((forall q, expiration_of o <> JFloat (FFinite q)) -> now < e).
Proof.
  intros D H1 H2 H3 Cm Rn o x e. subst x.
  destruct (refresh_run_due c now env D) as (r & s' & -> & C).
  destruct D as (_ & L & _). fold o in C, H1, H2, H3, Cm, Rn.
  destruct C as [[F | R] | e0 _ _ _ Ch | e0 x _ _ _ (T & G & I & U)].
  - destruct F as [F | [F | F]]; congruence.
  - destruct (comparable_not_rejected _ now Cm R).
  - assert (E : e0 = e).
    { destruct Ch as [(T & G & I & _) | (D & ->)].
      - apply (taken_from_response _ _ _ T G I).
      - symmetry. apply default_from_response. exact D. }
    subst e0. rewrite (unlock_renewed _ _ _ c L). cbn.
    destruct (expiry_from_response_bounds (expiration_of o) now) as (B1 & B2).
    repeat split; auto.
  - destruct (Rn T G) as (text & Rt).
    rewrite <- (taken_from_response _ _ _ T G I) in Rt. congruence.
Qed.

Lemma start_refresh_idle l now b :
  _refresh_token_if_needed now (client l) = Fin (client l) (Ok b) ->
  start CallRefresh now l = l.
Proof. intros E. unfold start. rewrite E. destruct l; reflexivity. Qed.

(** C1 (as amended). Single-flight guard: on every loop of one client
    instance at most one token exchange is in flight; and when a refresh
    is in flight (the flag is set) exactly one is, and a call of the
    refresh finishes at once, makes no request and changes nothing of the
    client nor of the loop.  The threshold test comes first: the call
    returns [False] when the token is within 24 hours of its expiry, and
    [True] otherwise. *)
Theorem single_flight_guard (l : loop) (now : Z) :
  reachable l ->
  (auth_in_flight l <= 1)%nat /\
  (_refresh_lock (client l) = true ->
   auth_in_flight l = 1%nat /\
   start CallRefresh now l = l /\
   exists b,
     _refresh_token_if_needed now (client l) = Fin (client l) (Ok b) /\
     (b = false <-> _token_expires (client l) - now <= 86400)).
Proof.
  intros R. destruct (reachable_single_flight l R) as (_ & N).
  split; [rewrite N; destruct (_refresh_lock (client l)); lia|].
  intros L. rewrite L in N. split; [exact N|].
  destruct (Z_gt_le_dec (_token_expires (client l) - now) TOKEN_REFRESH_THRESHOLD)
    as [G | G].
  - pose proof (refresh_fresh _ _ G) as E.
    split; [apply (start_refresh_idle l now true E)|].
    exists true. split; [exact E|].
    change TOKEN_REFRESH_THRESHOLD with 86400 in G. split; [discriminate | lia].
  - pose proof (refresh_locked _ _ G L) as E.
    split; [apply (start_refresh_idle l now false E)|].
    exists false. split; [exact E|]. split; [intros _; exact G | reflexivity].
Qed.

(** C4 (as amended). Refresh-in-progress flag: on every loop of one
    client instance the flag is set exactly when one token exchange is in
    flight, and never more than one is.  A refresh that starts with the
    flag clear and runs alone leaves it clear on every way out: the guards
    that answer at once, every failure, the success, every exception of
    the exchange.  A refresh that starts with the flag set (another call
    holds it) leaves it set and the client untouched.  And the call that
    holds the flag clears it when its exchange comes back, whatever the
    outcome and whatever the other calls did to the client meanwhile. *)
Theorem refresh_lock_discipline (l : loop) (now : Z)
    (env : request -> net_outcome) :
  reachable l ->
  let x := run (_refresh_token_if_needed now (client l)) env in
  (_refresh_lock (client l) = true <-> auth_in_flight l = 1%nat) /\
  (auth_in_flight l <= 1)%nat /\
  (_refresh_lock (client l) = false -> _refresh_lock (final x) = false) /\
  (_refresh_lock (client l) = true -> final x = client l /\ requests x = []) /\
  (forall i o A req (k : net_outcome -> QingLongClient -> coro A),
     nth_error (waiting l) i = Some (Suspended req k) ->
     is_auth req = true ->
     _refresh_lock (client (resume i o l)) = false).
Proof.
  intros R x. pose proof (reachable_single_flight l R) as I.
  destruct I as (F & N).
  split; [|split; [|split; [|split]]].
  - rewrite N. destruct (_refresh_lock (client l)); split; congruence.
  - rewrite N. destruct (_refresh_lock (client l)); lia.
  - intros L. subst x.
    destruct (refresh_guarded (client l) now) as [(b & E) | D].
    + rewrite E. exact L.
    + destruct (refresh_run_due _ _ env D) as (r & s' & -> & C).
      destruct C; reflexivity.
  - intros L. subst x.
    destruct (refresh_guarded (client l) now) as [(b & E) | (_ & L' & _)].
    + rewrite E. split; reflexivity.
    + congruence.
  - intros i o A req k E IA.
    apply (resume_auth_unlocks i o l req A k (conj F N) E IA).
Qed.

(** ** The task client *)

(** HTTP status 401. *)
Definition unauthorized (o : net_outcome) : bool :=
  match o with
  | NetResponse st _ => st =? 401
  | NetRaise _ => false
  end.

(** The client after the task request came to [o]: the session is open
    and a 401 has reset the last refresh time. *)
Definition after_call (o : net_outcome) (s : QingLongClient) : QingLongClient :=
  if unauthorized o then set_last_refresh_time 0 (opened s) else opened s.

(** The parsed body of a response. *)
Definition body_of (o : net_outcome) : json :=
  match o with
  | NetResponse _ (Ok j) => j
  | _ => JDict []
  end.

Lemma run_task_alone c now task_id env :
  let r := run (_refresh_token_if_needed now c) env in
  let req := run_request (final r) task_id in
  run (async_run_task task_id now c) env =
  (after_call (env req) (final r),
   Ok (http_ok (env req) && app_code_ok (env req)),
   (requests r ++ [req])%list).
Proof.
  intros r req. subst req r.
  unfold async_run_task, try_except. unfold bind at 1.
  rewrite run_except, run_bind.
  destruct (refresh_returns c now env) as (b & Hb).
  destruct (run (_refresh_token_if_needed now c) env) as [[s1 r1] tr1].
  cbn in Hb. subst r1. cbn [final requests fst snd].
  unfold bind, this, assign, http, await, response_json, lift, run_request, ret, raise.
  cbn -[append _get_session]. rewrite get_session_opened. cbn -[append].
  unfold after_call, unauthorized, http_ok, app_code_ok, payload, field.
  destruct (env _) as [e | st bd];
    [cbn -[append]; rewrite app_nil_r; reflexivity|].
  cbn -[append].
  destruct (Z.eqb_spec st 401) as [-> | N4]; [reflexivity|].
  cbn -[append].
  destruct (st =? 200) eqn:S2; [|reflexivity].
  cbn -[append].
  destruct bd as [j | e]; [|cbn -[append]; rewrite app_nil_r; reflexivity].
  destruct j; try (cbn -[append]; rewrite app_nil_r; reflexivity).
  cbn -[append]. destruct (lookup "code" d) as [v |]; cbn -[append];
    [destruct (eq_int v 200)|]; reflexivity.
Qed.

Lemma get_tasks_alone c now env :
  let r := run (_refresh_token_if_needed now c) env in
  let req := tasks_request (final r) in
  run (async_get_tasks now c) env =
  (after_call (env req) (final r),
   Ok (if http_ok (env req) && app_code_ok (env req)
       then body_of (env req) else JDict []),
   (requests r ++ [req])%list).
Proof.
  intros r req. subst req r.
  unfold async_get_tasks, try_except. unfold bind at 1.
  rewrite run_except, run_bind.
  destruct (refresh_returns c now env) as (b & Hb).
  destruct (run (_refresh_token_if_needed now c) env) as [[s1 r1] tr1].
  cbn in Hb. subst r1. cbn [final requests fst snd].
  unfold bind, this, assign, http, await, response_json, lift, tasks_request, ret, raise.
  cbn -[append _get_session]. rewrite get_session_opened. cbn -[append].
  unfold after_call, unauthorized, http_ok, app_code_ok, payload, field, body_of.
  destruct (env _) as [e | st bd];
    [cbn -[append]; rewrite app_nil_r; reflexivity|].
  cbn -[append].
  destruct (Z.eqb_spec st 401) as [-> | N4]; [reflexivity|].
  cbn -[append].
  destruct (st =? 200) eqn:S2; [|reflexivity].
  cbn -[append].
  destruct bd as [j | e]; [|cbn -[append]; rewrite app_nil_r; reflexivity].
  destruct j; try (cbn -[append]; rewrite app_nil_r; reflexivity).
  cbn -[append]. destruct (lookup "code" d) as [v |]; cbn -[append];
    [destruct (eq_int v 200)|]; reflexivity.
Qed.

(** Results on every interleaving.  [passes P c]: whenever [c] returns,
    now or after any resumptions on any client, the value satisfies [P];
    [lands P c]: moreover [c] never raises. *)
Section Lands.

Context {A : Type} (P : A -> Prop).

Inductive passes : coro A -> Prop :=
| passes_ok s a : P a -> passes (Fin s (Ok a))
| passes_raise s e : passes (Fin s (Raise e))
| passes_await s req k : (forall o s', passes (k o s')) -> passes (Await s req k).

Inductive lands : coro A -> Prop :=
| lands_ok s a : P a -> lands (Fin s (Ok a))
| lands_await s req k : (forall o s', lands (k o s')) -> lands (Await s req k).

Lemma lands_except (c : coro A) (h : exn -> async A) :
  passes c -> (forall e s, lands (h e s)) -> lands (except_coro c h).
Proof.
  intros Pc H. induction Pc as [s a Pa | s e | s req k K IH]; cbn.
  - constructor. exact Pa.
  - apply H.
  - constructor. exact IH.
Qed.

Lemma lands_run (c : coro A) env :
  lands c -> exists a, returned (run c env) = Ok a /\ P a.
Proof.
  induction 1 as [s a Pa | s req k K IH]; cbn.
  - eauto.
  - destruct (IH (env req) s) as (a & E & Pa).
    destruct (run (k (env req) s) env) as [[s1 r1] tr1]. cbn in *. eauto.
Qed.

End Lands.

Lemma passes_bind {A B} (P : B -> Prop) (c : coro A) (f : A -> async B) :
  (forall a s, passes P (f a s)) -> passes P (bind_coro c f).
Proof.
  intros F. induction c as [s [a | e] | s req k IH]; cbn.
  - apply F.
  - constructor.
  - constructor. intros o s'. apply IH.
Qed.

Ltac passes_tail :=
  unfold bind, this, assign, http, await, response_json, lift, ret, raise;
  cbn -[append _get_session]; rewrite ?get_session_opened; cbn -[append];
  repeat first
    [ apply passes_raise
    | apply passes_ok; reflexivity
    | apply passes_ok; exact I
    | apply passes_await; intros ? ?
    | progress cbn -[append]
    | match goal with
      | |- context [get ?v _ _] => is_var v; destruct v
      | |- context [match ?x with _ => _ end] => destruct x
      | |- context [if ?b then _ else _] => destruct b
      end ].

Lemma run_task_lands task_id now c :
  lands (fun _ => True) (async_run_task task_id now c).
Proof.
  unfold async_run_task, try_except.
  apply lands_except; [|intros; constructor; exact I].
  unfold bind at 1. apply passes_bind. intros _ s. passes_tail.
Qed.

Lemma get_tasks_lands now c :
  lands (fun v => is_dict v = true) (async_get_tasks now c).
Proof.
  unfold async_get_tasks, try_except.
  apply lands_except; [|intros; constructor; reflexivity].
  unfold bind at 1. apply passes_bind. intros _ s. passes_tail.
Qed.

Lemma http_ok_status o : http_ok o = true <-> http_status o = Some 200.
Proof.
  destruct o as [e | st b]; cbn.
  - split; discriminate.
  - rewrite Z.eqb_eq. split; [intros -> | intros [= ->]]; reflexivity.
Qed.

Lemma unauthorized_status o : http_status o = Some 401 -> unauthorized o = true.
Proof. destruct o as [e | st b]; cbn; [discriminate | intros [= ->]; reflexivity]. Qed.

Lemma app_code_ok_body o :
  app_code_ok o = true -> exists d, body_of o = JDict d.
Proof.
  destruct o as [e | st [[] | e]]; cbn; try discriminate. eauto.
Qed.

(** C8. runTask result: [async_run_task] makes, after the requests of its
    refresh step, exactly one run request carrying the task id; it
    returns [True] if and only if that request comes back with HTTP
    status 200 and a body whose application code is 200, and [False] in
    every other case (another status, another code, a body that is not
    such an object, any exception or timeout).  On HTTP 401 it returns
    [False] with the last refresh time reset to 0, so that the backoff
    test of a refresh at any clock reading from 300 on is not met. *)
Theorem run_task_result (c : QingLongClient) (now : Z) (task_id : string)
    (env : request -> net_outcome) :
  let r := run (_refresh_token_if_needed now c) env in
  let req := run_request (final r) task_id in
  let x := run (async_run_task task_id now c) env in
  requests x = (requests r ++ [req])%list /\
  (returned x = Ok true <->
   http_status (env req) = Some 200 /\ app_code_ok (env req) = true) /\
  (returned x <> Ok true -> returned x = Ok false) /\
  (http_status (env req) = Some 401 ->
   returned x = Ok false /\
   _last_refresh_time (final x) = 0 /\
   forall now', 300 <= now' -> (now' - _last_refresh_time (final x) <? 300) = false).
Proof.
  intros r req x. subst x. rewrite (run_task_alone c now task_id env).
  fold r. fold req. cbn [requests returned final fst snd].
  split; [reflexivity|]. split; [|split].
  - rewrite <- http_ok_status. split.
    + intros [= E]. apply andb_true_iff. exact E.
    + intros E. apply andb_true_iff in E. rewrite E. reflexivity.
  - destruct (http_ok (env req) && app_code_ok (env req)); congruence.
  - intros U.
    assert (H : http_ok (env req) = false).
    { destruct (http_ok (env req)) eqn:E; [|reflexivity].
      apply http_ok_status in E. congruence. }
    rewrite H. unfold after_call. rewrite (unauthorized_status _ U). cbn.
    repeat split. intros now' Hn. apply Z.ltb_ge. lia.
Qed.

(** C9. No exception crosses the client boundary: whatever the client,
    the clock, the task id and the outcomes of the HTTP calls (timeout,
    connection error, body that is not JSON, any status, any exception of
    the HTTP layer), [async_run_task] returns a boolean and
    [async_get_tasks] returns a dict, the empty one unless the response
    has status 200 and application code 200; neither raises, run alone or
    resumed on any interleaving. *)
Theorem no_exception_crosses (c : QingLongClient) (now : Z) (task_id : string)
    (env : request -> net_outcome) :
  (exists b : bool, returned (run (async_run_task task_id now c) env) = Ok b) /\
  (exists d,
     returned (run (async_get_tasks now c) env) = Ok (JDict d) /\
     (let o := env (tasks_request (final (run (_refresh_token_if_needed now c) env))) in
      http_ok o && app_code_ok o = false -> d = [])) /\
  lands (fun _ : bool => True) (async_run_task task_id now c) /\
  lands (fun v => is_dict v = true) (async_get_tasks now c).
Proof.
  split; [|split; [|split]].
  - rewrite (run_task_alone c now task_id env). cbn. eauto.
  - rewrite (get_tasks_alone c now env). cbn [returned fst snd].
    set (o := env (tasks_request (final (run (_refresh_token_if_needed now c) env)))).
    destruct (http_ok o && app_code_ok o) eqn:E.
    + apply andb_true_iff in E. destruct E as (_ & E).
      destruct (app_code_ok_body o E) as (d & ->).
      exists d. split; [reflexivity | discriminate].
    + exists []. split; reflexivity.
  - apply run_task_lands.
  - apply get_tasks_lands.
Qed.

(** C10. Task-list parsing: when the task request comes back with status
    200 and the payload [{code: 200, data: {data: [t1, ..., tn], total:
    N}}], [async_get_tasks] returns that payload as it is and
    [_extract_tasks_list] yields exactly the inner list [[t1, ..., tn]].
    For the payload with the single task [{id: "1", command: "task
    foo.js", isDisabled: 0}] the list has that one task, with id ["1"]
    and command ["task foo.js"], and the attributes count one task, its
    command, one enabled task and no disabled one. *)
Theorem task_list_parsing (c : QingLongClient) (now : Z) (o_auth : net_outcome)
    (tasks : list json) (total : Z) (stamp : string) :
  let env := answering o_auth (NetResponse 200 (Ok (tasks_payload tasks total))) in
  returned (run (async_get_tasks now c) env) = Ok (tasks_payload tasks total) /\
  _extract_tasks_list (tasks_payload tasks total) = JList tasks /\
  _extract_tasks_list (tasks_payload [sample_task] 1) = JList [sample_task] /\
  get sample_task "id" JNull = Ok (JStr "1") /\
  get sample_task "command" JNull = Ok (JStr "task foo.js") /\
  _get_tasks_attributes stamp [sample_task] =
    mkAttributes 1 [JStr "task foo.js"] 1 0 stamp "30秒".
Proof.
  intros env. split; [|repeat split].
  rewrite (get_tasks_alone c now env). reflexivity.
Qed.

End Client.


(** ** Formatted integers *)

(** [f"{n}"] for an [int]. *)
Definition fmt (n : Z) : string := NilZero.string_of_int (Z.to_int n).


(** ** A sample platform *)

(** Two digits, zero-padded ([%m], [%d], [%H], [%M], [%S]). *)
Definition pad2 (n : Z) : string := if n <? 10 then "0" ++ fmt n else fmt n.

(** Year, month and day of the day number [days] (days since
    1970-01-01), in the proleptic Gregorian calendar. *)
Definition civil (days : Z) : Z * Z * Z :=
  let z := days + 719468 in
  let era := z / 146097 in
  let doe := z - era * 146097 in
  let yoe := (doe - doe / 1460 + doe / 36524 - doe / 146096) / 365 in
  let doy := doe - (365 * yoe + yoe / 4 - yoe / 100) in
  let mp := (5 * doy + 2) / 153 in
  let d := doy - (153 * mp + 2) / 5 + 1 in
  let m := if mp <? 10 then mp + 3 else mp - 9 in
  let y := yoe + era * 400 + (if m <=? 2 then 1 else 0) in
  (y, m, d).

(** ['%Y-%m-%d %H:%M:%S'] of a timestamp, the local time zone being
    UTC. *)
Definition utc_text (t : Z) : string :=
  let '(y, m, d) := civil (t / 86400) in
  let secs := t mod 86400 in
  fmt y ++ "-" ++ pad2 m ++ "-" ++ pad2 d ++ " "
  ++ pad2 (secs / 3600) ++ ":" ++ pad2 (secs mod 3600 / 60) ++ ":"
  ++ pad2 (secs mod 60).

(** A platform whose [time_t] has 32 bits and whose time zone is UTC:
    [time.localtime] raises [OverflowError] on any other timestamp.  The
    sample runs below are on this platform. *)
#[export] Instance sample_platform : Platform := {|
  strftime_localtime t :=
    if (- 2147483648 <=? t) && (t <? 2147483648)
    then Ok (utc_text t)
    else Raise OverflowError
|}.

(** ** Sample runs of the token refresh and of the task client *)

(** The client left by a successful refresh at 1700000000 (the response
    gives an expiry 30 days ahead): the refresh run again at once is the
    fast path. *)
Lemma fresh_token_fast_path_witness :
  let env := answering
               (NetResponse 200 (Ok (token_body (JStr "new-token") (JInt 1702592000))))
               (NetRaise TimeoutError) in
  let x := run (_refresh_token_if_needed 1700000000 sample_client) env in
  returned x = Ok true /\
  requests x = [auth_request sample_client] /\
  _token_expires (final x) - 1700000000 > 86400 /\
  run (_refresh_token_if_needed 1700000000 (final x)) env = (final x, Ok true, []).
Proof.
  intros env x.
  assert (H : _token_expires (final x) - 1700000000 > 86400) by reflexivity.
  split; [reflexivity|]. split; [reflexivity|]. split; [exact H|].
  exact (proj2 (proj2 (fresh_token_fast_path (final x) 1700000000 env H))).
Defined.

(** A client one hour from expiry whose last refresh was 10 seconds
    ago. *)
Lemma backoff_guard_witness :
  let c := set_last_refresh_time 1699999990 sample_client in
  let env := answering (NetRaise TimeoutError) (NetRaise TimeoutError) in
  _refresh_token_if_needed 1700000000 c = Fin c (Ok false) /\
  run (_refresh_token_if_needed 1700000000 c) env = (c, Ok false, []).
Proof.
  intros c env.
  apply (backoff_guard c 1700000000 env).
  - vm_compute. discriminate.
  - reflexivity.
  - reflexivity.
Defined.

(** The exchange answered by HTTP 500. *)
Lemma failed_refresh_keeps_token_witness :
  let env := answering (NetResponse 500 (Raise ContentTypeError))
                       (NetRaise TimeoutError) in
  let x := run (_refresh_token_if_needed 1700000000 sample_client) env in
  requests x = [auth_request sample_client] /\
  returned x = Ok false /\
  _token (final x) = JStr "old-token" /\
  _token_expires (final x) = 1700003600 /\
  final x = opened sample_client.
Proof.
  intros env.
  apply (failed_refresh_keeps_token sample_client 1700000000 env).
  - repeat split; vm_compute; discriminate.
  - left. reflexivity.
Defined.

(** The exchange answered with a token and an integer expiration 30 days
    ahead. *)
Lemma successful_refresh_postcondition_witness :
  let env := answering
               (NetResponse 200 (Ok (token_body (JStr "new-token") (JInt 1702592000))))
               (NetRaise TimeoutError) in
  let x := run (_refresh_token_if_needed 1700000000 sample_client) env in
  returned x = Ok true /\
  _token (final x) = JStr "new-token" /\
  _token_expires (final x) = 1702592000 /\
  _last_refresh_time (final x) = 1700000000.
Proof.
  intros env x.
  assert (D : exchange_due sample_client 1700000000)
    by (repeat split; vm_compute; discriminate).
  assert (R : renders (expiration_of (env (auth_request sample_client))) 1700000000)
    by (intros _ _; eexists; reflexivity).
  pose proof (successful_refresh_postcondition sample_client 1700000000 env D
                (eq_refl true) (eq_refl true) (eq_refl true) (eq_refl true) R)
    as W.
  cbv zeta in W.
  destruct W as (_ & W2 & _ & W4 & W5 & W6 & _).
  exact (conj W2 (conj W4 (conj W5 W6))).
Defined.

(** C2, the claim as stated fails.  A response with status 200, code 200
    and a token, whose expiration is the string ["2023-12-14"]: the
    comparison with the clock raises, the call returns [False] and the
    token is not replaced.  A response whose expiration is 1700000000.5
    at clock reading 1700000000: the expiry assigned is 1700000000, which
    is not in the future.  A response whose expiration is
    1702592000000000000 (nanoseconds): the expiry is assigned, then
    [time.localtime] rejects it in the log line, and the call returns
    [False] with the expiry replaced and the token not. *)
Lemma successful_refresh_counterexample :
  let now := 1700000000 in
  let o1 := NetResponse 200 (Ok (token_body (JStr "new-token") (JStr "2023-12-14"))) in
  let o2 := NetResponse 200
              (Ok (token_body (JStr "new-token")
                     (JFloat (FFinite (Qmake 3400000001 2))))) in
  let o3 := NetResponse 200
              (Ok (token_body (JStr "new-token") (JInt 1702592000000000000))) in
  let x1 := run (_refresh_token_if_needed now sample_client)
                (answering o1 (NetRaise TimeoutError)) in
  let x2 := run (_refresh_token_if_needed now sample_client)
                (answering o2 (NetRaise TimeoutError)) in
  let x3 := run (_refresh_token_if_needed now sample_client)
                (answering o3 (NetRaise TimeoutError)) in
  exchange_due sample_client now /\
  (http_ok o1 = true /\ app_code_ok o1 = true /\ truthy (token_of o1) = true /\
   requests x1 = [auth_request sample_client] /\
   returned x1 = Ok false /\
   _token (final x1) = JStr "old-token" /\
   _token_expires (final x1) = 1700003600) /\
  (http_ok o2 = true /\ app_code_ok o2 = true /\ truthy (token_of o2) = true /\
   returned x2 = Ok true /\
   _token_expires (final x2) = now /\
   ~ now < _token_expires (final x2)) /\
  (http_ok o3 = true /\ app_code_ok o3 = true /\ truthy (token_of o3) = true /\
   returned x3 = Ok false /\
   _token (final x3) = JStr "old-token" /\
   _token_expires (final x3) = 1702592000000000000).
Proof.
  cbv zeta. split; [repeat split; vm_compute; discriminate|].
  split; [|split].
  - repeat split.
  - repeat split. vm_compute. discriminate.
  - repeat split.
Qed.

(** A refresh of the sample client is parked on its exchange: a second
    call one second later is turned away. *)
Lemma single_flight_guard_witness :
  let l := start CallRefresh 1700000000 (mkLoop sample_client []) in
  auth_in_flight l = 1%nat /\
  start CallRefresh 1700000001 l = l /\
  exists b,
    _refresh_token_if_needed 1700000001 (client l) = Fin (client l) (Ok b) /\
    (b = false <-> _token_expires (client l) - 1700000001 <= 86400).
Proof.
  intros l.
  assert (R : reachable l).
  { apply (reach_step (mkLoop sample_client [])).
    - apply reach_init. reflexivity.
    - apply step_start. }
  exact (proj2 (single_flight_guard l 1700000001 R) eq_refl).
Defined.

(** C1, the claim as stated fails.  A refresh is in flight, started at
    clock reading 1700000000 on a token that expires at 1700086400; a
    call at clock reading 1699999999 (the wall clock was set back by a
    second) finds the flag set and returns [True], not [False]. *)
Lemma single_flight_guard_counterexample :
  let l := start CallRefresh 1700000000
             (mkLoop (set_token_expires 1700086400 sample_client) []) in
  _refresh_lock (client l) = true /\
  auth_in_flight l = 1%nat /\
  _refresh_token_if_needed 1699999999 (client l) = Fin (client l) (Ok true) /\
  _refresh_token_if_needed 1699999999 (client l) <> Fin (client l) (Ok false).
Proof.
  cbv zeta. repeat split. discriminate.
Qed.

(** The sample client, nothing in flight: a refresh whose exchange times
    out leaves the flag clear. *)
Lemma refresh_lock_discipline_witness :
  let env := answering (NetRaise TimeoutError) (NetRaise TimeoutError) in
  let x := run (_refresh_token_if_needed 1700000000 sample_client) env in
  requests x = [auth_request sample_client] /\
  returned x = Ok false /\
  _refresh_lock (final x) = false.
Proof.
  intros env x.
  pose proof (refresh_lock_discipline (mkLoop sample_client []) 1700000000 env
                (reach_init sample_client eq_refl)) as W.
  cbv zeta in W. destruct W as (_ & _ & W & _).
  split; [reflexivity|]. split; [reflexivity|]. exact (W eq_refl).
Defined.

(** C4, the claim as stated fails.  A refresh of the sample client is
    parked on its exchange; a second call, one second later, returns
    [False] at the single-flight guard, and the flag is still set when
    that call has completed. *)
Lemma refresh_lock_discipline_counterexample :
  let l := start CallRefresh 1700000000 (mkLoop sample_client []) in
  let x := run (_refresh_token_if_needed 1700000001 (client l))
               (answering (NetRaise TimeoutError) (NetRaise TimeoutError)) in
  auth_in_flight l = 1%nat /\
  returned x = Ok false /\
  requests x = [] /\
  _refresh_lock (final x) = true /\
  _refresh_lock (final x) <> false.
Proof.
  cbv zeta. repeat split. discriminate.
Qed.

(** C7.  The code at two calls one second apart, the first of which
    fails.  The sample client has one hour left; the exchange is answered
    by HTTP 500 both times.  The first call makes the request and returns
    [False] without recording its time; the second call, one second
    later, makes the request again.  After a successful exchange, by
    contrast, the time is recorded and a call one second later is stopped
    by the 300-second guard. *)
Theorem failed_attempt_not_rate_limited :
  let failing := answering (NetResponse 500 (Raise ContentTypeError))
                           (NetRaise TimeoutError) in
  let x1 := run (_refresh_token_if_needed 1700000000 sample_client) failing in
  let x2 := run (_refresh_token_if_needed 1700000001 (final x1)) failing in
  let granting := answering
                    (NetResponse 200
                       (Ok (token_body (JStr "new-token") (JInt 1700001800))))
                    (NetRaise TimeoutError) in
  let y1 := run (_refresh_token_if_needed 1700000000 sample_client) granting in
  let y2 := run (_refresh_token_if_needed 1700000001 (final y1)) granting in
  (requests x1 = [auth_request sample_client] /\
   returned x1 = Ok false /\
   _last_refresh_time (final x1) = 0 /\
   requests x2 = [auth_request sample_client] /\
   returned x2 = Ok false) /\
  (requests y1 = [auth_request sample_client] /\
   returned y1 = Ok true /\
   _last_refresh_time (final y1) = 1700000000 /\
   requests y2 = [] /\
   returned y2 = Ok false).
Proof.
  cbv zeta. repeat split.
Qed.

(** The run request answered by HTTP 401. *)
Lemma run_task_result_witness :
  let env := answering (NetRaise TimeoutError)
                       (NetResponse 401 (Raise ContentTypeError)) in
  let x := run (async_run_task "42" 1700000000 sample_client) env in
  returned x = Ok false /\ _last_refresh_time (final x) = 0.
Proof.
  intros env x.
  pose proof (run_task_result sample_client 1700000000 "42" env) as W.
  cbv zeta in W. destruct W as (_ & _ & _ & W).
  destruct (W eq_refl) as (W1 & W2 & _).
  exact (conj W1 W2).
Defined.

(** A task list whose body is not JSON, after a token exchange that
    timed out. *)
Lemma no_exception_crosses_witness :
  let env := answering (NetRaise TimeoutError)
                       (NetResponse 200 (Raise JSONDecodeError)) in
  returned (run (async_run_task "42" 1700000000 sample_client) env) = Ok false /\
  returned (run (async_get_tasks 1700000000 sample_client) env) = Ok (JDict []).
Proof.
  intros env.
  destruct (no_exception_crosses sample_client 1700000000 "42" env)
    as (_ & (d & E & H) & _).
  split; [reflexivity|].
  rewrite E. rewrite (H eq_refl). reflexivity.
Defined.

(** ** [QingLongClient.get_token_info] *)

Module Info.

(** The dict [get_token_info] returns, one field per key. *)
Record t : Type := mk {
  token : json;
  token_expires : Z;
  expires_in : Z;
  expires_display : string;
  expires_at : string;
  is_valid : bool;
  needs_refresh : bool;
  last_refresh_time : Z
}.

End Info.

Section TokenInfo.

Context {platform : Platform}.

(** The days, hours, minutes and seconds that [get_token_info] computes
    for the display, with Python's floor division and modulo. *)
Definition breakdown (expires_in : Z) : Z * Z * Z * Z :=
  let days := expires_in / 86400 in
  let hours := (expires_in mod 86400) / 3600 in
  let minutes := (expires_in mod 3600) / 60 in
  let seconds := expires_in mod 60 in
  (days, hours, minutes, seconds).

Definition expires_display_of (expires_in : Z) : string :=
  if expires_in >? 0 then
    let '(days, hours, minutes, seconds) := breakdown expires_in in
    if days >? 0 then fmt days ++ "天" ++ fmt hours ++ "小时"
    else if hours >? 0 then fmt hours ++ "小时" ++ fmt minutes ++ "分钟"
    else if minutes >? 0 then fmt minutes ++ "分钟" ++ fmt seconds ++ "秒"
    else fmt seconds ++ "秒"
  else "已过期".

(** [get_token_info]; [current_time] is [int(time.time())].  It raises
    what [time.localtime] raises on a positive expiry. *)
Definition get_token_info (current_time : Z) (self : QingLongClient)
    : result Info.t :=
  let expires_in := _token_expires self - current_time in
  match (if _token_expires self >? 0
         then strftime_localtime (_token_expires self)
         else Ok "已过期") with
  | Ok expires_at =>
      Ok {| Info.token := _token self;
            Info.token_expires := _token_expires self;
            Info.expires_in := expires_in;
            Info.expires_display := expires_display_of expires_in;
            Info.expires_at := expires_at;
            Info.is_valid := expires_in >? TOKEN_EXPIRY_BUFFER;
            Info.needs_refresh := expires_in <=? TOKEN_REFRESH_THRESHOLD;
            Info.last_refresh_time := _last_refresh_time self |}
  | Raise e => Raise e
  end.

Lemma get_token_info_cases now c :
  match get_token_info now c with
  | Ok info =>
      Info.expires_display info = expires_display_of (_token_expires c - now) /\
      Info.is_valid info = (_token_expires c - now >? TOKEN_EXPIRY_BUFFER) /\
      Info.needs_refresh info = (_token_expires c - now <=? TOKEN_REFRESH_THRESHOLD)
  | Raise e =>
      0 < _token_expires c /\ strftime_localtime (_token_expires c) = Raise e
  end.
Proof.
  unfold get_token_info. destruct (Z.gtb_spec (_token_expires c) 0) as [G | G].
  - destruct (strftime_localtime (_token_expires c)); cbn; [repeat split|].
    split; [lia | reflexivity].
  - cbn. repeat split.
Qed.

(** "Needs refresh" and the refresh agree.  [get_token_info] raises only
    when [time.localtime] rejects a positive expiry.  Whenever it
    returns, at one clock reading, its [needs_refresh] flag is [False]
    exactly when [_refresh_token_if_needed] is the fast path (returns
    [True] at once, no request, client untouched); and a token that does
    not need a refresh is reported valid. *)
Theorem needs_refresh_agrees (now : Z) (c : QingLongClient) :
  match get_token_info now c with
  | Ok info =>
      (Info.needs_refresh info = false <->
       _refresh_token_if_needed now c = Fin c (Ok true)) /\
      (Info.needs_refresh info = false -> Info.is_valid info = true)
  | Raise e =>
      0 < _token_expires c /\ strftime_localtime (_token_expires c) = Raise e
  end.
Proof.
  pose proof (get_token_info_cases now c) as G.
  destruct (get_token_info now c) as [info | e]; [|exact G].
  destruct G as (_ & -> & ->). split.
  - split.
    + intros H. apply Z.leb_gt in H. apply refresh_fresh. lia.
    + intros E. apply Z.leb_gt.
      destruct (Z_gt_le_dec (_token_expires c - now) TOKEN_REFRESH_THRESHOLD)
        as [G | G]; [lia|].
      destruct (_refresh_lock c) eqn:L.
      * rewrite (refresh_locked c now G L) in E. discriminate.
      * destruct (Z_lt_le_dec (now - _last_refresh_time c) 300) as [B | B].
        -- rewrite (refresh_backoff c now G L B) in E. discriminate.
        -- destruct (refresh_suspends c now (conj G (conj L B))) as (k & E' & _).
           rewrite E' in E. discriminate.
  - intros H. apply Z.leb_gt in H. apply Z.gtb_lt.
    unfold TOKEN_REFRESH_THRESHOLD, TOKEN_EXPIRY_BUFFER in *. lia.
Qed.

(** The four parts of the display recompose to the seconds left, with
    hours below 24 and minutes and seconds below 60; they are all
    non-negative when the token has not expired. *)
Theorem breakdown_recomposes (expires_in : Z) :
  let '(days, hours, minutes, seconds) := breakdown expires_in in
  expires_in = days * 86400 + hours * 3600 + minutes * 60 + seconds /\
  0 <= hours < 24 /\ 0 <= minutes < 60 /\ 0 <= seconds < 60 /\
  (0 < expires_in -> 0 <= days).
Proof.
  unfold breakdown.
  Z.to_euclidean_division_equations. lia.
Qed.

Lemma fmt_digit n :
  0 <= n ->
  exists ch rest, fmt n = String ch rest /\ (48 <= nat_of_ascii ch <= 57)%nat.
Proof.
  intros H. unfold fmt. destruct n as [| p | p]; [| |lia].
  - exists "0"%char, "". split; [reflexivity | cbn; lia].
  - cbn. pose proof (Unsigned.to_uint_nonnil p) as N.
    destruct (Pos.to_uint p); [congruence| ..]; cbn;
      do 2 eexists; (split; [reflexivity | cbn; lia]).
Qed.

Lemma fmt_not_expired n s :
  0 <= n -> fmt n ++ s <> "已过期".
Proof.
  intros H E. destruct (fmt_digit n H) as (ch & rest & F & R).
  rewrite F in E. cbn in E. injection E as E _. subst ch. cbn in R. lia.
Qed.

Lemma fmt_starts_with_digit n s :
  0 <= n ->
  exists ch rest,
    fmt n ++ s = String ch rest /\ (48 <= nat_of_ascii ch <= 57)%nat.
Proof.
  intros H. destruct (fmt_digit n H) as (ch & rest & F & R).
  rewrite F. cbn. eauto.
Qed.

(** The display of the time left.  Whenever [get_token_info] returns (it
    raises only when [time.localtime] rejects a positive expiry), its
    display reads "expired" exactly when the expiry is not after the
    clock reading; in every other case the display starts with a
    digit. *)
Theorem expired_display (now : Z) (c : QingLongClient) :
  match get_token_info now c with
  | Ok info =>
      (Info.expires_display info = "已过期" <-> _token_expires c <= now) /\
      (now < _token_expires c ->
       exists ch rest,
         Info.expires_display info = String ch rest /\
         (48 <= nat_of_ascii ch <= 57)%nat)
  | Raise e =>
      0 < _token_expires c /\ strftime_localtime (_token_expires c) = Raise e
  end.
Proof.
  pose proof (get_token_info_cases now c) as G.
  destruct (get_token_info now c) as [info | e]; [|exact G].
  destruct G as (-> & _ & _). unfold expires_display_of.
  pose proof (breakdown_recomposes (_token_expires c - now)) as B.
  destruct (breakdown (_token_expires c - now)) as [[[d h] m] s].
  destruct B as (_ & Hh & Hm & Hs & Hd).
  destruct (Z.gtb_spec (_token_expires c - now) 0) as [G | G].
  - assert (D : exists ch rest,
              (if d >? 0 then fmt d ++ "天" ++ fmt h ++ "小时"
               else if h >? 0 then fmt h ++ "小时" ++ fmt m ++ "分钟"
               else if m >? 0 then fmt m ++ "分钟" ++ fmt s ++ "秒"
               else fmt s ++ "秒") = String ch rest /\
              (48 <= nat_of_ascii ch <= 57)%nat).
    { destruct (d >? 0); [apply fmt_starts_with_digit; lia|].
      destruct (h >? 0); [apply fmt_starts_with_digit; lia|].
      destruct (m >? 0); apply fmt_starts_with_digit; lia. }
    split; [|intros _; exact D].
    split; [|lia]. intros E. exfalso.
    destruct D as (ch & rest & D & R). rewrite D in E.
    injection E as E _. subst ch. cbn in R. lia.
  - split; [split; [lia | reflexivity] | lia].
Qed.

End TokenInfo.

(** The sample client more than a day before its expiry. *)
Lemma needs_refresh_agrees_witness :
  exists info,
    get_token_info 1699900000 sample_client = Ok info /\
    Info.needs_refresh info = false /\
    Info.is_valid info = true /\
    _refresh_token_if_needed 1699900000 sample_client
      = Fin sample_client (Ok true).
Proof.
  pose proof (needs_refresh_agrees 1699900000 sample_client) as H.
  destruct (get_token_info 1699900000 sample_client) as [info | e] eqn:E;
    [|vm_compute in E; discriminate E].
  assert (N : Info.needs_refresh info = false).
  { vm_compute in E. injection E as <-. reflexivity. }
  destruct H as [H1 H2].
  exists info. split; [reflexivity|]. split; [exact N|].
  split; [exact (H2 N) | apply H1, N].
Defined.

(** The sample client an hour before its expiry. *)
Lemma expired_display_witness :
  exists info ch rest,
    get_token_info 1700000000 sample_client = Ok info /\
    Info.expires_display info = String ch rest /\
    (48 <= nat_of_ascii ch <= 57)%nat.
Proof.
  pose proof (expired_display 1700000000 sample_client) as H.
  destruct (get_token_info 1700000000 sample_client) as [info | e] eqn:E;
    [|vm_compute in E; discriminate E].
  destruct H as [_ H].
  destruct H as (ch & rest & D & R); [cbn; lia|].
  exists info, ch, rest. split; [reflexivity|]. split; [exact D | exact R].
Defined.

(** ** What a refresh can have done *)

Section Outcomes.

Context {platform : Platform}.

Lemma expiry_choice_not_before expiration now e :
  expiry_choice expiration now e -> now <= e.
Proof.
  intros [(T & G & I & _) | (_ & ->)]; [|lia].
  destruct expiration as [| b | n | [q | neg |] | s | l | d]; cbn in *;
    try discriminate.
  - injection G as G. injection I as <-.
    destruct b; cbn in *; [|discriminate]. apply Z.gtb_lt in G. lia.
  - injection G as G. injection I as <-. apply Z.gtb_lt in G. lia.
  - injection G as G. injection I as <-. apply Z.gtb_lt in G.
    apply quot_not_before. lia.
Qed.

(** Every refresh that runs alone ends in one of three ways, and never by
    raising.  It returns [False], and the token, the last refresh time
    and the flag are what they were (on every path: the two guards, every
    failure of the exchange, every exception); the expiry is what it was
    too, except on one path: the response passed the three checks, its
    expiry was assigned, and [time.localtime] then rejected that expiry
    in the log line, so that the expiry alone has been replaced.  Or it
    returns [True] without a request and without touching the client,
    the token having more than 24 hours left.  Or it returns [True] after
    one token exchange: the token is then a non-empty value taken from
    the response, the last refresh time is the clock reading of the call
    and the expiry is not before it. *)
Theorem refresh_outcomes (c : QingLongClient) (now : Z)
    (env : request -> net_outcome) :
  let x := run (_refresh_token_if_needed now c) env in
  let o := env (auth_request c) in
  match returned x with
  | Ok false =>
      _token (final x) = _token c /\
      _last_refresh_time (final x) = _last_refresh_time c /\
      _refresh_lock (final x) = _refresh_lock c /\
      (_token_expires (final x) = _token_expires c \/
       (requests x = [auth_request c] /\
        http_ok o = true /\ app_code_ok o = true /\ truthy (token_of o) = true /\
        to_int (expiration_of o) = Ok (_token_expires (final x)) /\
        exists e, strftime_localtime (_token_expires (final x)) = Raise e))
  | Ok true =>
      (requests x = [] /\ final x = c /\ _token_expires c - now > 86400) \/
      (requests x = [auth_request c] /\
       _token (final x) = token_of o /\
       truthy (_token (final x)) = true /\
       _last_refresh_time (final x) = now /\
       now <= _token_expires (final x) /\
       _refresh_lock (final x) = false)
  | Raise _ => False
  end.
Proof.
  intros x o. subst x.
  destruct (Z_gt_le_dec (_token_expires c - now) TOKEN_REFRESH_THRESHOLD) as [G | G].
  { rewrite (refresh_fresh c now G). cbn. left. repeat split. exact G. }
  destruct (_refresh_lock c) eqn:L.
  { rewrite (refresh_locked c now G L). cbn. repeat split; try congruence.
    left. reflexivity. }
  destruct (Z_lt_le_dec (now - _last_refresh_time c) 300) as [B | B].
  { rewrite (refresh_backoff c now G L B). cbn. repeat split; try congruence.
    left. reflexivity. }
  destruct (refresh_run_due c now env (conj G (conj L B))) as (r & s' & -> & C).
  fold o in C.
  destruct C as [_ | e H1 H2 H3 Ch | e y H1 H2 H3 (T & Gt & I & U)]; cbn.
  - repeat split; try congruence. left. reflexivity.
  - right. repeat split; try assumption.
    apply (expiry_choice_not_before _ _ _ Ch).
  - repeat split; try congruence. right. repeat split; try assumption.
    exists y. exact U.
Qed.

(** A rejected token is sent again.  While the stored expiry is more than
    24 hours ahead, [async_run_task] makes no token exchange: it sends
    the stored token, and when the server answers 401 the token and its
    expiry stay as they are, so that the next call, at any clock reading
    at which the expiry is still more than 24 hours ahead, sends the very
    same request again. *)
Theorem rejected_token_is_resent (c : QingLongClient) (now now' : Z)
    (task_id : string) (env : request -> net_outcome) :
  _token_expires c - now > 86400 ->
  _token_expires c - now' > 86400 ->
  http_status (env (run_request c task_id)) = Some 401 ->
  let x := run (async_run_task task_id now c) env in
  let x' := run (async_run_task task_id now' (final x)) env in
  requests x = [run_request c task_id] /\
  returned x = Ok false /\
  _token (final x) = _token c /\
  _token_expires (final x) = _token_expires c /\
  requests x' = [run_request c task_id] /\
  returned x' = Ok false.
Proof.
  intros F F' U x x'. subst x' x.
  assert (H : http_ok (env (run_request c task_id)) = false).
  { destruct (http_ok (env (run_request c task_id))) eqn:E; [|reflexivity].
    apply http_ok_status in E. congruence. }
  rewrite (run_task_alone c now task_id env).
  rewrite (refresh_fresh c now F). cbn [run final requests returned fst snd app].
  rewrite H. unfold after_call. rewrite (unauthorized_status _ U).
  set (c1 := set_last_refresh_time 0 (opened c)).
  rewrite (run_task_alone c1 now' task_id env).
  assert (F1 : _token_expires c1 - now' > TOKEN_REFRESH_THRESHOLD) by exact F'.
  rewrite (refresh_fresh c1 now' F1). cbn [run final requests returned fst snd app].
  change (run_request c1 task_id) with (run_request c task_id).
  rewrite H. repeat split.
Qed.

End Outcomes.

(** The sample client with 30 days left, the server answering 401. *)
Lemma rejected_token_is_resent_witness :
  let c := set_token_expires 1702592000 sample_client in
  let env := answering (NetRaise TimeoutError)
                       (NetResponse 401 (Raise ContentTypeError)) in
  let x := run (async_run_task "42" 1700000000 c) env in
  let x' := run (async_run_task "42" 1700000030 (final x)) env in
  requests x = [run_request c "42"] /\
  returned x = Ok false /\
  _token (final x) = JStr "old-token" /\
  _token_expires (final x) = 1702592000 /\
  requests x' = [run_request c "42"] /\
  returned x' = Ok false.
Proof.
  intros c env.
  apply (rejected_token_is_resent c 1700000000 1700000030 "42" env);
    reflexivity.
Defined.

(** ** The task counts of the sensor *)

(** Tasks of the list that are dicts. *)
Definition dict_tasks (tasks_list : list json) : list json :=
  filter is_dict tasks_list.

Lemma count_task_fold tasks a :
  let a' := fold_left count_task tasks a in
  total_tasks a' = total_tasks a /\
  last_updated a' = last_updated a /\
  polling_interval a' = polling_interval a /\
  List.length (commands a') =
    (List.length (commands a) + List.length (dict_tasks tasks))%nat /\
  enabled_tasks a' + disabled_tasks a' =
    enabled_tasks a + disabled_tasks a + Z.of_nat (List.length (dict_tasks tasks)).
Proof.
  unfold dict_tasks. revert a. induction tasks as [| t tasks IH]; intros a; cbn -[Z.of_nat].
  - repeat split; lia.
  - specialize (IH (count_task a t)). cbn -[Z.of_nat] in IH.
    destruct IH as (I1 & I2 & I3 & I4 & I5).
    rewrite I1, I2, I3, I4, I5. clear I1 I2 I3 I4 I5.
    destruct t; cbn -[Z.of_nat]; try (repeat split; lia).
    destruct (truthy _); cbn -[Z.of_nat]; rewrite length_app;
      cbn -[Z.of_nat]; repeat split; lia.
Qed.

(** The counts of [_get_tasks_attributes] add up: enabled and disabled
    tasks together are as many as the commands listed, which are as many
    as the elements of the list that are dicts; the total counts every
    element, so it is at least that, and equal when every element is a
    dict. *)
Theorem tasks_attributes_add_up (stamp : string) (tasks_list : list json) :
  let a := _get_tasks_attributes stamp tasks_list in
  total_tasks a = Z.of_nat (List.length tasks_list) /\
  enabled_tasks a + disabled_tasks a = Z.of_nat (List.length (commands a)) /\
  List.length (commands a) = List.length (dict_tasks tasks_list) /\
  enabled_tasks a + disabled_tasks a <= total_tasks a /\
  (forallb is_dict tasks_list = true ->
   enabled_tasks a + disabled_tasks a = total_tasks a).
Proof.
  intros a. subst a. unfold _get_tasks_attributes.
  destruct (count_task_fold tasks_list
              (mkAttributes (Z.of_nat (List.length tasks_list)) [] 0 0 stamp "30秒"))
    as (I1 & _ & _ & I4 & I5).
  cbn in I1, I4, I5.
  assert (Le : (List.length (dict_tasks tasks_list) <= List.length tasks_list)%nat)
    by apply filter_length_le.
  rewrite I1, I4, I5. repeat split; try lia.
  intros A. unfold dict_tasks.
  rewrite (forallb_filter_id is_dict tasks_list A). lia.
Qed.

(** ** config_flow.py and the setup of an entry *)

Module Flow.

(** The user input, as [STEP_USER_DATA_SCHEMA] validates it: every key
    is there, with its type. *)
Record user_input : Type := mkInput {
  host : string;
  port : Z;
  client_id : string;
  client_secret : string;
  ssl : bool
}.

(** The data of a config entry: the user input with the token that
    [async_step_user] adds.  No code of the integration writes the key
    [token_expires]; [async_setup_entry] reads it with a default. *)
Record entry_data : Type := mkEntry {
  input : user_input;
  token : json;
  token_expires : option Z
}.

(** What [validate_input] raises: its two errors, or any other
    exception. *)
Inductive error : Type :=
| CannotConnect (msg : string)
| InvalidAuth (msg : json)
| Unexpected (e : exn).

Inductive outcome (A : Type) : Type :=
| Returned (a : A)
| Raised (e : error).
Arguments Returned {A} a.
Arguments Raised {A} e.

Definition bind {A B} (m : outcome A) (f : A -> outcome B) : outcome B :=
  match m with
  | Returned a => f a
  | Raised e => Raised e
  end.

(** A Python operation inside [validate_input]. *)
Definition py {A} (r : result A) : outcome A :=
  match r with
  | Ok a => Returned a
  | Raise e => Raised (Unexpected e)
  end.

(** The dict [validate_input] returns. *)
Record info : Type := mkInfo {
  title : string;
  data : user_input;
  info_token : json
}.

Inductive flow_result : Type :=
| CreateEntry (title : string) (data : entry_data)
| ShowForm (errors : list (string * string)).

End Flow.

Notation "x <~ m ;; k" := (Flow.bind m (fun x => k))
  (at level 61, m at next level, right associativity).

(** The one request of [validate_input]. *)
Definition validate_request (data : Flow.user_input) : request :=
  let protocol := if Flow.ssl data then "https" else "http" in
  GetAuth (protocol ++ "://" ++ Flow.host data ++ ":" ++ fmt (Flow.port data)
           ++ API_AUTH)
          (Flow.client_id data) (Flow.client_secret data).

(** [validate_input], as a function of what its request comes to. *)
Definition validate_input (data : Flow.user_input) (o : net_outcome)
    : Flow.outcome Flow.info :=
  match o with
  | NetRaise e => Flow.Raised (Flow.Unexpected e)
  | NetResponse st body =>
      if negb (st =? 200) then
        Flow.Raised (Flow.CannotConnect ("HTTP status: " ++ fmt st))
      else
        data_response <~ Flow.py body ;;
        code <~ Flow.py (get data_response "code" JNull) ;;
        if negb (eq_int code 200) then
          msg <~ Flow.py (get data_response "message" (JStr "Authentication failed")) ;;
          Flow.Raised (Flow.InvalidAuth msg)
        else
          token_data <~ Flow.py (get data_response "data" (JDict [])) ;;
          token <~ Flow.py (get token_data "token" JNull) ;;
          if negb (truthy token) then
            Flow.Raised (Flow.InvalidAuth (JStr "No token in response"))
          else
            Flow.Returned
              (Flow.mkInfo
                 ("青龙面板 (" ++ Flow.host data ++ ":" ++ fmt (Flow.port data) ++ ")")
                 data token)
  end.

(** [ConfigFlow.async_step_user]; [o] is the outcome of the request of
    [validate_input], made when there is user input. *)
Definition async_step_user (user_input : option Flow.user_input)
    (o : net_outcome) : Flow.flow_result :=
  match user_input with
  | Some ui =>
      match validate_input ui o with
      | Flow.Raised (Flow.CannotConnect _) =>
          Flow.ShowForm [("base", "cannot_connect")]
      | Flow.Raised (Flow.InvalidAuth _) =>
          Flow.ShowForm [("base", "invalid_auth")]
      | Flow.Raised (Flow.Unexpected _) =>
          Flow.ShowForm [("base", "unknown")]
      | Flow.Returned info =>
          Flow.CreateEntry (Flow.title info)
            (Flow.mkEntry ui (Flow.info_token info) None)
      end
  | None => Flow.ShowForm []
  end.

(** What [async_setup_entry] stores under [hass.data[DOMAIN][entry_id]],
    the client apart (it is the object the coroutine runs on). *)
Record entry_store : Type := mkStore {
  store_host : string;
  store_port : Z;
  store_ssl : bool;
  store_token : json;
  store_token_expires : Z;
  store_tasks : json;
  store_selected_task : json
}.

(** The client [async_setup_entry] constructs. *)
Definition setup_client (entry : Flow.entry_data) : QingLongClient :=
  let ui := Flow.input entry in
  __init__ (Flow.host ui) (Flow.port ui) (Flow.ssl ui) (Flow.token entry)
    (match Flow.token_expires entry with Some t => t | None => 0 end)
    (Flow.client_id ui) (Flow.client_secret ui).

(** The dict [async_setup_entry] stores for [entry] once it has the task
    payload. *)
Definition setup_store (entry : Flow.entry_data) (tasks_data : json)
    : entry_store :=
  let ui := Flow.input entry in
  mkStore (Flow.host ui) (Flow.port ui) (Flow.ssl ui) (Flow.token entry)
    (match Flow.token_expires entry with Some t => t | None => 0 end)
    tasks_data JNull.

(** The config flow sorts every outcome of its request into one of four
    results, and never raises.  It creates an entry exactly when the
    response has status 200, application code 200 and a non-empty token
    (the three checks of the refresh): the entry then holds the user
    input and that token, and no expiry.  Otherwise it shows the form
    again with one error: [cannot_connect] for a response whose status is
    not 200; [invalid_auth] for a status-200 JSON object whose code is
    not 200 or whose token is missing or empty; [unknown] for an
    exception of the request, a body that is not a JSON object, or a
    [data] that is not an object. *)
Theorem step_user_outcome (ui : Flow.user_input) (o : net_outcome) :
  match async_step_user (Some ui) o with
  | Flow.CreateEntry title data =>
      http_ok o = true /\ app_code_ok o = true /\ truthy (token_of o) = true /\
      data = Flow.mkEntry ui (token_of o) None /\
      title = "青龙面板 (" ++ Flow.host ui ++ ":" ++ fmt (Flow.port ui) ++ ")"
  | Flow.ShowForm errors =>
      exchange_failed o /\
      ((errors = [("base", "cannot_connect")] /\
        exists st, http_status o = Some st /\ st <> 200) \/
       (errors = [("base", "invalid_auth")] /\
        http_ok o = true /\ payload o <> None /\
        (app_code_ok o = false \/
         (token_data o <> None /\ truthy (token_of o) = false))) \/
       (errors = [("base", "unknown")] /\
        (http_status o = None \/
         (http_ok o = true /\
          (payload o = None \/
           (app_code_ok o = true /\ token_data o = None))))))
  end.
Proof.
  unfold async_step_user, validate_input, exchange_failed, app_code_ok, token_of,
    token_data, payload, http_ok, http_status, field.
  destruct o as [e | st b]; cbn.
  { split; [auto|]. right. right. auto. }
  destruct (Z.eqb_spec st 200) as [-> | N]; cbn.
  2:{ split; [auto|]. left. split; [reflexivity|]. eauto. }
  destruct b as [j | e]; cbn.
  2:{ split; [auto|]. right. right. auto. }
  destruct j; cbn; try (split; [auto|]; right; right; auto).
  destruct (lookup "code" d) as [code |] eqn:C; cbn.
  2:{ split; [auto|]. right. left. repeat split; auto. discriminate. }
  destruct (eq_int code 200) eqn:E; cbn.
  2:{ split; [auto|]. right. left. repeat split; auto. discriminate. }
  destruct (lookup "data" d) as [td |] eqn:D; cbn.
  - destruct td as [| ? | ? | ? | ? | ? | items]; cbn;
      try (split; [auto|]; right; right; auto 10).
    destruct (lookup "token" items) as [tok |] eqn:T; cbn.
    + destruct (truthy tok) eqn:Tr; cbn.
      * repeat split.
      * split; [auto|]. right. left. repeat split; auto; try discriminate.
        right. split; [discriminate | reflexivity].
    + split; [auto|]. right. left. repeat split; auto; try discriminate.
      right. split; [discriminate | reflexivity].
  - split; [auto|]. right. left. repeat split; auto; try discriminate.
    right. split; [discriminate | reflexivity].
Qed.

Lemma append_assoc (a b c : string) : (a ++ b) ++ c = a ++ b ++ c.
Proof. induction a as [| ch a IH]; cbn; [reflexivity | rewrite IH; reflexivity]. Qed.

Section Setup.

Context {platform : Platform}.

(** [async_setup_entry] of __init__.py, on the client it constructs.
    [forward store] is the host's awaited
    [hass.config_entries.async_forward_entry_setups(entry, PLATFORMS)]:
    it sets up the platforms on the data just stored, which they read and
    through which they reach the client; it stands outside any [try]. *)
Definition async_setup_entry (forward : entry_store -> async unit)
    (entry : Flow.entry_data) (now : Z) : coro bool :=
  (tasks_data <- (if truthy (Flow.token entry)
                  then try_except (async_get_tasks now)
                                  (fun err => ret (JDict []))
                  else ret (JDict [])) ;;
   forward (setup_store entry tasks_data) ;;;
   ret true)
    (setup_client entry).

(** Up to the forwarding, [async_setup_entry] cannot fail.  It hands the
    platforms a store that holds the entry's token, no selected task and
    a task list that is a dict; when the entry has no token it has made
    no request by then, the task list is empty and the client is as
    constructed.  From there the call is the forwarding: its requests
    follow, it returns [True] when the forwarding returns and raises what
    the forwarding raises. *)
Theorem setup_entry_stores (forward : entry_store -> async unit)
    (entry : Flow.entry_data) (now : Z) (env : request -> net_outcome) :
  exists tasks_data c1 tr1,
    is_dict tasks_data = true /\
    store_token (setup_store entry tasks_data) = Flow.token entry /\
    store_selected_task (setup_store entry tasks_data) = JNull /\
    store_tasks (setup_store entry tasks_data) = tasks_data /\
    (truthy (Flow.token entry) = false ->
     tr1 = [] /\ tasks_data = JDict [] /\ c1 = setup_client entry) /\
    run (async_setup_entry forward entry now) env =
      (let '(c2, r, tr2) := run (forward (setup_store entry tasks_data) c1) env in
       (c2,
        match r with Ok _ => Ok true | Raise e => Raise e end,
        (tr1 ++ tr2)%list)).
Proof.
  unfold async_setup_entry. unfold bind at 1. rewrite run_bind.
  destruct (truthy (Flow.token entry)) eqn:T.
  - unfold try_except. rewrite run_except.
    destruct (lands_run _ _ env (get_tasks_lands now (setup_client entry)))
      as (v & E & D).
    destruct (run (async_get_tasks now (setup_client entry)) env) as [[s1 r1] tr1].
    cbn in E. subst r1.
    exists v, s1, tr1. repeat split; try exact D; try discriminate.
    unfold bind. rewrite run_bind.
    destruct (run (forward (setup_store entry v) s1) env) as [[c2 [u | e]] tr2];
      cbn; rewrite ?app_nil_r; reflexivity.
  - exists (JDict []), (setup_client entry), []. repeat split.
    cbn [run ret]. unfold bind. rewrite run_bind.
    destruct (run (forward (setup_store entry (JDict [])) (setup_client entry)) env)
      as [[c2 [u | e]] tr2]; cbn; rewrite ?app_nil_r; reflexivity.
Qed.

(** The token of the config flow is exchanged again at setup.  For every
    entry the flow creates, the client of [async_setup_entry] holds the
    flow's token with expiry 0, so that the token reads as expired and
    not valid; at any clock reading from 300 on, setup first repeats the
    flow's own request (same URL, same credentials) as a token exchange,
    and then asks for the tasks, before anything the forwarding to the
    platforms requests. *)
Theorem flow_token_exchanged_at_setup (forward : entry_store -> async unit)
    (ui : Flow.user_input) (o : net_outcome) (title : string)
    (data : Flow.entry_data) (now : Z) (env : request -> net_outcome) :
  async_step_user (Some ui) o = Flow.CreateEntry title data ->
  300 <= now ->
  let c := setup_client data in
  let x := run (async_setup_entry forward data now) env in
  _token c = token_of o /\
  truthy (_token c) = true /\
  _token_expires c = 0 /\
  (exists info,
     get_token_info now c = Ok info /\
     Info.is_valid info = false /\
     Info.expires_display info = "已过期") /\
  auth_request c = validate_request ui /\
  exists tasks_data c1,
    requests x =
      (auth_request c
       :: tasks_request (final (run (_refresh_token_if_needed now c) env))
       :: requests (run (forward (setup_store data tasks_data) c1) env)).
Proof.
  intros E N c x.
  pose proof (step_user_outcome ui o) as S. rewrite E in S.
  destruct S as (_ & _ & T & -> & _). subst c x.
  split; [reflexivity|]. split; [exact T|]. split; [reflexivity|].
  split.
  { eexists. split; [reflexivity|].
    cbn [Info.is_valid Info.expires_display]. split.
    - rewrite Z.gtb_ltb. apply Z.ltb_ge. cbn. unfold TOKEN_EXPIRY_BUFFER. lia.
    - unfold expires_display_of.
      destruct (Z.gtb_spec (_token_expires
                              (setup_client (Flow.mkEntry ui (token_of o) None))
                            - now) 0) as [G | G];
        [cbn in G; lia | reflexivity]. }
  split.
  { unfold auth_request, validate_request, setup_client, __init__, fmt.
    cbn -[append]. rewrite !append_assoc. reflexivity. }
  unfold async_setup_entry. unfold bind at 1. rewrite run_bind.
  cbn [Flow.token]. rewrite T. unfold try_except. rewrite run_except.
  set (c := setup_client (Flow.mkEntry ui (token_of o) None)).
  rewrite (get_tasks_alone c now env).
  assert (D : exchange_due c now).
  { repeat split; cbn; unfold TOKEN_REFRESH_THRESHOLD; lia. }
  destruct (refresh_run_due c now env D) as (r & s' & R & _).
  rewrite R. cbn [requests final fst snd app].
  match goal with
  | |- context [run (bind (forward (setup_store ?d ?td)) _ ?c1) env] =>
      exists td, c1; unfold bind; rewrite run_bind;
      destruct (run (forward (setup_store d td) c1) env) as [[c2 [u | e]] tr2]
  end; cbn; rewrite ?app_nil_r; reflexivity.
Qed.

End Setup.

(** An entry without a token, and platforms that request nothing. *)
Lemma setup_entry_stores_witness :
  let entry := Flow.mkEntry (Flow.mkInput "192.168.1.10" 5700 "client-id"
                               "client-secret" false) JNull None in
  let x := run (async_setup_entry (fun _ => ret tt) entry 1700000000)
               (answering (NetRaise TimeoutError) (NetRaise TimeoutError)) in
  x = (setup_client entry, Ok true, []).
Proof.
  intros entry x.
  destruct (setup_entry_stores (fun _ => ret tt) entry 1700000000
              (answering (NetRaise TimeoutError) (NetRaise TimeoutError)))
    as (tasks_data & c1 & tr1 & _ & _ & _ & _ & H & R).
  destruct (H eq_refl) as (-> & -> & ->).
  exact R.
Defined.

(** The flow accepts a token; setup at 1700000000, the platforms
    requesting nothing. *)
Lemma flow_token_exchanged_at_setup_witness :
  let ui := Flow.mkInput "192.168.1.10" 5700 "client-id" "client-secret" false in
  let o := NetResponse 200 (Ok (token_body (JStr "first-token") (JInt 1702592000))) in
  let data := Flow.mkEntry ui (JStr "first-token") None in
  let c := setup_client data in
  let env := answering (NetResponse 500 (Raise ContentTypeError))
                       (NetRaise TimeoutError) in
  _token_expires c = 0 /\
  requests (run (async_setup_entry (fun _ => ret tt) data 1700000000) env) =
    [auth_request c; tasks_request c].
Proof.
  intros ui o data c env.
  assert (E : async_step_user (Some ui) o =
              Flow.CreateEntry "青龙面板 (192.168.1.10:5700)" data) by reflexivity.
  assert (N : 300 <= 1700000000) by (vm_compute; discriminate).
  destruct (flow_token_exchanged_at_setup (fun _ => ret tt) ui o _ data
              1700000000 env E N) as (_ & _ & W3 & _ & _ & td & c1 & W7).
  exact (conj W3 W7).
Defined.

(** ** select.py: the options of the task select *)

Module Select.

(** An entry of [_task_mapping]. *)
Record task_info : Type := mkTaskInfo {
  task_id : string;
  command : string;
  name : json
}.

(** The fields of [QingLongTaskSelect] that [_update_options] reads and
    writes; [_client] is whether [self._client] is there. *)
Record t : Type := mk {
  _client : bool;
  _tasks_data : json;
  _options : list string;
  _current_option : option string;
  _task_mapping : list (string * task_info);
  _attr_options : list string;
  _attr_current_option : option string
}.

End Select.

(** A [dict] with values of any type: lookup, and assignment to a key
    (in place when the key is there, at the end otherwise). *)
Fixpoint assoc {V} (k : string) (d : list (string * V)) : option V :=
  match d with
  | [] => None
  | (k', v) :: d' => if String.eqb k k' then Some v else assoc k d'
  end.

Fixpoint dict_set {V} (k : string) (v : V) (d : list (string * V))
    : list (string * V) :=
  match d with
  | [] => [(k, v)]
  | (k', v') :: d' =>
      if String.eqb k k' then (k, v) :: d' else (k', v') :: dict_set k v d'
  end.

(** [str(v)]; [repr] renders the floats and the containers. *)
Definition str_of (repr : json -> string) (v : json) : string :=
  match v with
  | JStr s => s
  | JInt n => fmt n
  | JNull => "None"
  | JBool true => "True"
  | JBool false => "False"
  | _ => repr v
  end.

(** [s[n:]]. *)
Fixpoint string_drop (n : nat) (s : string) : string :=
  match n, s with
  | O, _ => s
  | S n', String _ rest => string_drop n' rest
  | S _, EmptyString => EmptyString
  end.

(** The script name of a command: the command without a leading
    ["task "]. *)
Definition script_name (command : string) : string :=
  if String.prefix "task " command then string_drop 5 command else command.

(** The characters of a [str], as [for] yields them: each byte that
    starts a UTF-8 sequence with the continuation bytes after it. *)
Definition is_continuation (c : ascii) : bool :=
  (128 <=? N_of_ascii c)%N && (N_of_ascii c <? 192)%N.

Fixpoint characters (s : string) : list string :=
  match s with
  | EmptyString => []
  | String c rest =>
      let chs := characters rest in
      match rest with
      | String c' _ =>
          if is_continuation c' then
            match chs with
            | ch :: chs' => String c ch :: chs'
            | [] => [String c EmptyString]
            end
          else String c EmptyString :: chs
      | EmptyString => String c EmptyString :: chs
      end
  end.

(** What [for task in v] ranges over: the elements of a list, the
    characters of a str, the keys of a dict; anything else is not
    iterable. *)
Definition iterate (v : json) : result (list json) :=
  match v with
  | JList l => Ok l
  | JStr s => Ok (map JStr (characters s))
  | JDict d => Ok (map (fun kv => JStr (fst kv)) d)
  | _ => Raise TypeError
  end.

(** [sorted] on strs: insertion into ascending order, by code points
    (which is byte order on UTF-8). *)
Fixpoint insert_sorted (x : string) (l : list string) : list string :=
  match l with
  | [] => [x]
  | y :: l' => if String.leb x y then x :: y :: l' else y :: insert_sorted x l'
  end.

Fixpoint sorted (l : list string) : list string :=
  match l with
  | [] => []
  | x :: l' => insert_sorted x (sorted l')
  end.

(** The task list [_update_options] picks out of the payload. *)
Definition select_tasks_list (tasks_data : json) : json :=
  if is_dict tasks_data && contains tasks_data "data" then
    match get tasks_data "data" JNull with
    | Ok inner_data =>
        if is_dict inner_data && contains inner_data "data" then
          match get inner_data "data" (JList []) with
          | Ok tasks_list => tasks_list
          | Raise _ => JList []
          end
        else if is_list inner_data then inner_data
        else JList []
    | Raise _ => JList []
    end
  else JList [].

(** One turn of the loop of [_update_options], on the enabled tasks and
    the mapping so far. *)
Definition add_option (repr : json -> string)
    (acc : list string * list (string * Select.task_info)) (task : json)
    : result (list string * list (string * Select.task_info)) :=
  let '(enabled_tasks, task_mapping) := acc in
  match task with
  | JDict d =>
      if eq_int (field "isDisabled" d) 0 then
        let task_id := str_of repr (field "id" d) in
        match (match lookup "command" d with Some c => c | None => JStr "" end) with
        | JStr command =>
            let name := script_name command in
            Ok ((enabled_tasks ++ [name])%list,
                dict_set name
                  (Select.mkTaskInfo task_id command
                     (match lookup "name" d with
                      | Some n => n
                      | None => JStr "未命名任务"
                      end))
                  task_mapping)
        | _ => Raise AttributeError      (* no [startswith] *)
        end
      else Ok acc
  | _ => Ok acc
  end.

(** The loop: it stops at the first task that raises, with the mapping
    as it is by then. *)
Fixpoint add_options (repr : json -> string) (tasks : list json)
    (acc : list string * list (string * Select.task_info))
    : list (string * Select.task_info)
      * result (list string * list (string * Select.task_info)) :=
  match tasks with
  | [] => (snd acc, Ok acc)
  | task :: rest =>
      match add_option repr acc task with
      | Ok acc' => add_options repr rest acc'
      | Raise e => (snd acc, Raise e)
      end
  end.

(** [QingLongTaskSelect._update_options].  [stored] is the task payload
    of the entry in [hass.data] when the entry is there.  The result is
    the entity afterwards and whether the call raised. *)
Definition _update_options (repr : json -> string) (stored : option json)
    (self : Select.t) : Select.t * result unit :=
  if negb (Select._client self) then (self, Ok tt)
  else
    let tasks_data :=
      match stored with
      | Some tasks => tasks
      | None => Select._tasks_data self
      end in
    match iterate (select_tasks_list tasks_data) with
    | Raise e =>
        (Select.mk (Select._client self) (Select._tasks_data self)
           (Select._options self) (Select._current_option self) []
           (Select._attr_options self) (Select._attr_current_option self),
         Raise e)
    | Ok tasks =>
        match add_options repr tasks ([], []) with
        | (mapping, Raise e) =>
            (Select.mk (Select._client self) (Select._tasks_data self)
               (Select._options self) (Select._current_option self) mapping
               (Select._attr_options self) (Select._attr_current_option self),
             Raise e)
        | (_, Ok (enabled_tasks, mapping)) =>
            let options := sorted enabled_tasks in
            let unset := match Select._current_option self with
                         | Some s => String.eqb s ""
                         | None => true
                         end in
            match options with
            | first :: _ =>
                if unset then
                  (Select.mk (Select._client self) (Select._tasks_data self)
                     options (Some first) mapping options (Some first), Ok tt)
                else
                  (Select.mk (Select._client self) (Select._tasks_data self)
                     options (Select._current_option self) mapping options
                     (Select._attr_current_option self), Ok tt)
            | [] =>
                (Select.mk (Select._client self) (Select._tasks_data self)
                   options (Select._current_option self) mapping options
                   (Select._attr_current_option self), Ok tt)
            end
        end
    end.

Lemma select_tasks_list_extract v : select_tasks_list v = _extract_tasks_list v.
Proof.
  unfold select_tasks_list, _extract_tasks_list.
  destruct v as [| | | | | | d]; try reflexivity. cbn.
  destruct (lookup "data" d) as [inner |]; [|reflexivity]. cbn.
  destruct inner as [| | | | | | d']; try reflexivity. cbn.
  destruct (lookup "data" d'); reflexivity.
Qed.

Lemma assoc_dict_set {V} k k' (v : V) d :
  assoc k (dict_set k' v d) = if String.eqb k k' then Some v else assoc k d.
Proof.
  induction d as [| [k0 v0] d IH]; cbn.
  - reflexivity.
  - destruct (String.eqb_spec k' k0) as [-> | N]; cbn.
    + destruct (String.eqb k k0); reflexivity.
    + rewrite IH. destruct (String.eqb_spec k k') as [-> | N'].
      * apply String.eqb_neq in N. rewrite N. reflexivity.
      * reflexivity.
Qed.

Lemma insert_sorted_perm x l : Permutation (x :: l) (insert_sorted x l).
Proof.
  induction l as [| y l IH]; cbn.
  - apply Permutation_refl.
  - destruct (String.leb x y); [apply Permutation_refl|].
    eapply perm_trans; [apply perm_swap|]. apply perm_skip. exact IH.
Qed.

Lemma sorted_perm l : Permutation l (sorted l).
Proof.
  induction l as [| x l IH]; cbn.
  - constructor.
  - eapply perm_trans; [apply perm_skip; exact IH | apply insert_sorted_perm].
Qed.

Definition ascending : list string -> Prop :=
  Sorted (fun a b => String.leb a b = true).

Lemma insert_sorted_ascending x l : ascending l -> ascending (insert_sorted x l).
Proof.
  unfold ascending. induction 1 as [| y l S IH H]; cbn.
  - repeat constructor.
  - destruct (String.leb x y) eqn:E.
    + repeat constructor; assumption.
    + constructor; [exact IH|].
      assert (Y : String.leb y x = true)
        by (destruct (String.leb_total x y); congruence).
      destruct H as [| z l' Hz]; cbn.
      * repeat constructor. exact Y.
      * destruct (String.leb x z); constructor; assumption.
Qed.

Lemma sorted_ascending l : ascending (sorted l).
Proof.
  induction l as [| x l IH]; cbn.
  - constructor.
  - apply insert_sorted_ascending. exact IH.
Qed.

(** The command of a task, as the loop reads it. *)
Definition command_of (d : list (string * json)) : json :=
  match lookup "command" d with Some c => c | None => JStr "" end.

(** The task [d] is listed under [name] with the entry [info]. *)
Definition lists (repr : json -> string) (d : list (string * json))
    (name : string) (info : Select.task_info) : Prop :=
  eq_int (field "isDisabled" d) 0 = true /\
  command_of d = JStr (Select.command info) /\
  script_name (Select.command info) = name /\
  Select.task_id info = str_of repr (field "id" d).

(** The tasks the select takes for enabled. *)
Definition select_enabled (task : json) : bool :=
  match task with
  | JDict d => eq_int (field "isDisabled" d) 0
  | _ => false
  end.

Lemma add_options_ok repr tasks en mp m en' mp' :
  add_options repr tasks (en, mp) = (m, Ok (en', mp')) ->
  (forall name, In name en <-> assoc name mp <> None) ->
  m = mp' /\
  (forall name, In name en' <-> assoc name mp' <> None) /\
  (forall name, In name en' ->
     In name en \/ exists d info, In (JDict d) tasks /\ lists repr d name info) /\
  (forall d info, In (JDict d) tasks ->
     eq_int (field "isDisabled" d) 0 = true ->
     command_of d = JStr (Select.command info) ->
     In (script_name (Select.command info)) en') /\
  (forall name, In name en -> In name en') /\
  (forall name info, assoc name mp' = Some info ->
     assoc name mp = Some info \/
     exists d, In (JDict d) tasks /\ lists repr d name info) /\
  (List.length en' <=
   List.length en + List.length (filter select_enabled tasks))%nat.
Proof.
  revert en mp. induction tasks as [| task tasks IH]; intros en mp E K.
  - cbn in E. injection E as <- <- <-.
    repeat split; try tauto; auto.
    + apply K.
    + apply K.
    + intros d info []. 
    + cbn. lia.
  - cbn [add_options] in E.
    destruct (add_option repr (en, mp) task) as [[en1 mp1] | e] eqn:A;
      [|discriminate].
    assert (K1 : forall name, In name en1 <-> assoc name mp1 <> None).
    { unfold add_option in A. destruct task as [| | | | | | d];
        try (injection A as <- <-; exact K).
      destruct (eq_int (field "isDisabled" d) 0);
        [|injection A as <- <-; exact K].
      destruct (match lookup "command" d with Some c => c | None => JStr "" end)
        as [| | | | c | |]; try discriminate.
      injection A as <- <-. intros name.
      rewrite in_app_iff, assoc_dict_set. cbn.
      destruct (String.eqb_spec name (script_name c)) as [-> | N].
      - split; [discriminate | auto].
      - rewrite K. split; [intros [H | [H | []]]; congruence | auto]. }
    destruct (IH en1 mp1 E K1) as (Im & Ik & Iin & Icov & Imono & Imap & Ilen).
    split; [exact Im|]. split; [exact Ik|].
    unfold add_option in A.
    destruct task as [| | | | | | d];
      try (injection A as <- <-;
           repeat split;
           [ intros name H; destruct (Iin name H) as [H1 | (d & info & H1 & H2)];
             [left; exact H1 | right; exists d, info; split; [right; exact H1 | exact H2]]
           | intros d info [H | H]; [discriminate | apply (Icov d info H)]
           | exact Imono
           | intros name info H; destruct (Imap name info H) as [H1 | (d & H1 & H2)];
             [left; exact H1 | right; exists d; split; [right; exact H1 | exact H2]]
           | cbn; exact Ilen ]).
    cbn [filter select_enabled].
    destruct (eq_int (field "isDisabled" d) 0) eqn:En.
    + unfold command_of in *.
      destruct (match lookup "command" d with Some c => c | None => JStr "" end)
        as [| | | | c | |] eqn:C; try discriminate.
      injection A as <- <-.
      repeat split.
      * intros name H. destruct (Iin name H) as [H1 | (d' & info & H1 & H2)].
        -- apply in_app_iff in H1. destruct H1 as [H1 | [<- | []]]; [left; exact H1|].
           right. exists d, (Select.mkTaskInfo (str_of repr (field "id" d)) c
                               (match lookup "name" d with
                                | Some n => n | None => JStr "未命名任务" end)).
           split; [left; reflexivity|]. unfold lists, command_of. cbn.
           rewrite C. repeat split. exact En.
        -- right. exists d', info. split; [right; exact H1 | exact H2].
      * intros d' info [H | H] E1 E2.
        -- injection H as <-. apply Imono. apply in_app_iff. right. left.
           rewrite C in E2. injection E2 as ->. reflexivity.
        -- apply (Icov d' info H E1 E2).
      * intros name H. apply Imono. apply in_app_iff. left. exact H.
      * intros name info H. destruct (Imap name info H) as [H1 | (d' & H1 & H2)].
        -- rewrite assoc_dict_set in H1.
           destruct (String.eqb_spec name (script_name c)) as [-> | N];
             [|left; exact H1].
           injection H1 as <-. right. exists d. split; [left; reflexivity|].
           unfold lists, command_of. cbn. rewrite C. repeat split. exact En.
        -- right. exists d'. split; [right; exact H1 | exact H2].
      * rewrite length_app in Ilen. cbn in *. lia.
    + injection A as <- <-.
      repeat split.
      * intros name H. destruct (Iin name H) as [H1 | (d' & info & H1 & H2)];
          [left; exact H1 | right; exists d', info; split; [right; exact H1 | exact H2]].
      * intros d' info [H | H] E1 E2; [injection H as <-; congruence|].
        apply (Icov d' info H E1 E2).
      * exact Imono.
      * intros name info H. destruct (Imap name info H) as [H1 | (d' & H1 & H2)];
          [left; exact H1 | right; exists d'; split; [right; exact H1 | exact H2]].
      * exact Ilen.
Qed.

Lemma update_options_done repr stored self self' :
  Select._client self = true ->
  _update_options repr stored self = (self', Ok tt) ->
  exists items enabled_tasks mapping m,
    iterate (_extract_tasks_list
               (match stored with
                | Some tasks => tasks
                | None => Select._tasks_data self
                end)) = Ok items /\
    add_options repr items ([], []) = (m, Ok (enabled_tasks, mapping)) /\
    Select._options self' = sorted enabled_tasks /\
    Select._attr_options self' = sorted enabled_tasks /\
    Select._task_mapping self' = mapping.
Proof.
  intros C E. unfold _update_options in E. rewrite C in E. cbn [negb] in E.
  rewrite select_tasks_list_extract in E.
  destruct (iterate _) as [items | e]; [|discriminate].
  destruct (add_options repr items ([], [])) as [m [[en mp] | e]] eqn:A;
    [|discriminate].
  exists items, en, mp, m. split; [reflexivity|]. split; [exact A|].
  destruct (sorted en) as [| first rest].
  - injection E as <-. repeat split.
  - destruct (match Select._current_option self with
              | Some s => String.eqb s ""
              | None => true
              end); injection E as <-; repeat split.
Qed.

(** After [_update_options] has returned, the options are exactly the
    script names of the tasks of the payload that are dicts with
    [isDisabled == 0], in ascending order; they are exactly the keys of
    the task mapping; and the entry of the mapping under a name holds the
    command and the id of such a task whose script name it is. *)
Theorem select_options_listed (repr : json -> string) (stored : option json)
    (self self' : Select.t) :
  Select._client self = true ->
  _update_options repr stored self = (self', Ok tt) ->
  exists items,
    iterate (_extract_tasks_list
               (match stored with
                | Some tasks => tasks
                | None => Select._tasks_data self
                end)) = Ok items /\
    (forall name,
       In name (Select._options self') <->
       exists d info, In (JDict d) items /\ lists repr d name info) /\
    (forall name,
       In name (Select._options self') <->
       assoc name (Select._task_mapping self') <> None) /\
    (forall name info,
       assoc name (Select._task_mapping self') = Some info ->
       exists d, In (JDict d) items /\ lists repr d name info) /\
    ascending (Select._options self') /\
    Select._attr_options self' = Select._options self'.
Proof.
  intros C E.
  destruct (update_options_done repr stored self self' C E)
    as (items & en & mp & m & I & A & -> & -> & ->).
  exists items. split; [exact I|].
  destruct (add_options_ok repr items [] [] m en mp A) as
    (_ & Ik & Iin & Icov & _ & Imap & _).
  { intros name. cbn. split; [intros [] | congruence]. }
  assert (S : forall name, In name (sorted en) <-> In name en).
  { intros name. split; apply Permutation_in;
      [apply Permutation_sym|]; apply sorted_perm. }
  repeat split.
  - intros H. apply S in H. destruct (Iin name H) as [[] | H']. exact H'.
  - intros (d & info & H1 & (H2 & H3 & H4 & H5)). apply S.
    rewrite <- H4. apply (Icov d info H1 H2 H3).
  - intros H. apply Ik, S, H.
  - intros H. apply S, Ik, H.
  - intros name info H. destruct (Imap name info H) as [H' | H']; [discriminate|].
    exact H'.
  - apply sorted_ascending.
Qed.

(** Two tasks, one of them disabled. *)
Lemma select_options_listed_witness :
  let payload :=
    tasks_payload
      [sample_task;
       JDict [("id", JInt 2); ("command", JStr "task off.js"); ("isDisabled", JInt 1)]]
      2 in
  let self := Select.mk true (JDict []) [] None [] [] None in
  let self' := fst (_update_options (fun _ => "") (Some payload) self) in
  Select._options self' = ["foo.js"] /\
  (forall name,
     In name (Select._options self') <->
     assoc name (Select._task_mapping self') <> None).
Proof.
  intros payload self self'.
  destruct (select_options_listed (fun _ => "") (Some payload) self self'
              eq_refl eq_refl) as (items & _ & _ & W & _).
  split; [reflexivity | exact W].
Defined.

Lemma add_options_raises repr l acc m e :
  add_options repr l acc = (m, Raise e) -> e = AttributeError.
Proof.
  revert acc. induction l as [| task l IH]; intros acc A; cbn [add_options] in A.
  - discriminate.
  - destruct (add_option repr acc task) as [acc' | e0] eqn:B; [apply (IH acc' A)|].
    injection A as _ <-. unfold add_option in B. destruct acc.
    destruct task; try discriminate.
    destruct (eq_int _ 0); try discriminate.
    destruct (match lookup "command" _ with Some c => c | None => JStr "" end);
      congruence.
Qed.

Lemma iterate_raises v e : iterate v = Raise e -> e = TypeError.
Proof. destruct v; cbn; congruence. Qed.

(** When [_update_options] raises, the options and the selection stay as
    they were; what it raises is the [TypeError] of a task list that is
    not iterable or the [AttributeError] of a command that is not a
    str. *)
Theorem update_options_raises (repr : json -> string) (stored : option json)
    (self self' : Select.t) (e : exn) :
  _update_options repr stored self = (self', Raise e) ->
  Select._options self' = Select._options self /\
  Select._attr_options self' = Select._attr_options self /\
  Select._current_option self' = Select._current_option self /\
  (e = TypeError \/ e = AttributeError).
Proof.
  unfold _update_options. destruct (Select._client self); cbn [negb];
    [|discriminate].
  destruct (iterate _) as [items | e0] eqn:I.
  - destruct (add_options repr items ([], [])) as [m [[en mp] | e1]] eqn:A.
    + destruct (sorted en);
        [|destruct (match Select._current_option self with
                    | Some s => String.eqb s ""
                    | None => true
                    end)]; discriminate.
    + intros [= <- <-]. repeat split. right.
      apply (add_options_raises _ _ _ _ _ A).
  - intros [= <- <-]. repeat split. left. apply (iterate_raises _ _ I).
Qed.

(** A payload whose task list is a number. *)
Lemma update_options_raises_witness :
  let payload := JDict [("code", JInt 200); ("data", JDict [("data", JInt 3)])] in
  let self := Select.mk true (JDict []) ["old.js"] (Some "old.js") [] ["old.js"]
                (Some "old.js") in
  let self' := fst (_update_options (fun _ => "") (Some payload) self) in
  Select._options self' = ["old.js"] /\
  Select._current_option self' = Some "old.js".
Proof.
  intros payload self self'.
  destruct (update_options_raises (fun _ => "") (Some payload) self self' TypeError
              eq_refl) as (W1 & _ & W3 & _).
  exact (conj W1 W3).
Defined.

(** The tasks the sensor counts as enabled. *)
Definition sensor_enabled (task : json) : bool :=
  match task with
  | JDict d => negb (truthy (field "isDisabled" d))
  | _ => false
  end.

Lemma enabled_tasks_count tasks a :
  enabled_tasks (fold_left count_task tasks a) =
  enabled_tasks a + Z.of_nat (List.length (filter sensor_enabled tasks)).
Proof.
  revert a. induction tasks as [| t tasks IH]; intros a; cbn -[Z.of_nat].
  - lia.
  - rewrite IH. destruct t; cbn -[Z.of_nat]; try lia.
    unfold field. destruct (truthy _); cbn -[Z.of_nat]; lia.
Qed.

Lemma eq_int_zero_falsy v : eq_int v 0 = true -> truthy v = false.
Proof.
  destruct v as [| b | n | [q | |] | | |]; cbn; try discriminate.
  - destruct b; cbn; [discriminate | reflexivity].
  - intros ->. reflexivity.
  - intros ->. reflexivity.
Qed.

Lemma filter_length_mono {A} (f g : A -> bool) l :
  (forall x, f x = true -> g x = true) ->
  (List.length (filter f l) <= List.length (filter g l))%nat.
Proof.
  intros H. induction l as [| x l IH]; cbn; [lia|].
  destruct (f x) eqn:F.
  - rewrite (H x F). cbn. lia.
  - destruct (g x); cbn; lia.
Qed.

(** The select never offers more than the sensor counts: on one task
    list, the options of [_update_options] are at most as many as the
    [enabled_tasks] of [_get_tasks_attributes].  (The select wants
    [isDisabled == 0]; the sensor counts every task whose [isDisabled] is
    not true, a missing one included.) *)
Theorem select_within_sensor_count (repr : json -> string) (stamp : string)
    (stored : option json) (self self' : Select.t) (items : list json) :
  Select._client self = true ->
  _extract_tasks_list (match stored with
                       | Some tasks => tasks
                       | None => Select._tasks_data self
                       end) = JList items ->
  _update_options repr stored self = (self', Ok tt) ->
  Z.of_nat (List.length (Select._options self')) <=
  enabled_tasks (_get_tasks_attributes stamp items).
Proof.
  intros C X E.
  destruct (update_options_done repr stored self self' C E)
    as (items' & en & mp & m & I & A & -> & _ & _).
  rewrite X in I. injection I as <-.
  destruct (add_options_ok repr items [] [] m en mp A) as
    (_ & _ & _ & _ & _ & _ & Ilen).
  { intros name. cbn. split; [intros [] | congruence]. }
  rewrite <- (Permutation_length (sorted_perm en)).
  unfold _get_tasks_attributes. rewrite enabled_tasks_count. cbn -[Z.of_nat].
  assert (M : (List.length (filter select_enabled items) <=
               List.length (filter sensor_enabled items))%nat).
  { apply filter_length_mono. intros [| | | | | | d]; cbn; try discriminate.
    intros H. rewrite (eq_int_zero_falsy _ H). reflexivity. }
  cbn in Ilen. lia.
Qed.

(** The sample task and a task without the [isDisabled] key: the select
    offers one option, the sensor counts two enabled tasks. *)
Lemma select_within_sensor_count_witness :
  let items := [sample_task; JDict [("id", JInt 2); ("command", JStr "task bar.js")]] in
  let self := Select.mk true (JDict []) [] None [] [] None in
  let self' := fst (_update_options (fun _ => "") (Some (tasks_payload items 2)) self) in
  Select._options self' = ["foo.js"] /\
  enabled_tasks (_get_tasks_attributes "" items) = 2 /\
  Z.of_nat (List.length (Select._options self')) <=
  enabled_tasks (_get_tasks_attributes "" items).
Proof.
  intros items self self'.
  split; [reflexivity|]. split; [reflexivity|].
  apply (select_within_sensor_count (fun _ => "") "" (Some (tasks_payload items 2))
           self self' items eq_refl eq_refl eq_refl).
Defined.

(** ** select.py: selecting an option *)

Module Selected.

(** The [run_status] dict; the times are readings of [time.time()]. *)
Record run_status : Type := mkStatus {
  task_name : string;
  status : string;
  start_time : pyfloat;
  outcome : option string;       (* key "result" *)
  error : option string;
  end_time : pyfloat
}.

(** What [async_select_option] stores under ["selected_task"]. *)
Record t : Type := mk {
  option : string;
  task_id : string;
  timestamp : pyfloat;
  status_of_run : run_status     (* key "run_status" *)
}.

End Selected.

Section Selecting.

Context {platform : Platform}.

(** [QingLongTaskSelect.async_select_option], on the client of the
    entity.  It returns the entity afterwards with, when it has not
    raised, the value it stores under ["selected_task"] if it stores
    one.  [now] is the clock reading of the refresh inside
    [async_run_task]; the three times are the readings of [time.time()]
    it records. *)
Definition async_select_option (self : Select.t) (option : string) (now : Z)
    (start_time end_time timestamp : pyfloat)
    : async (Select.t * result (Datatypes.option Selected.t)) :=
  if negb (existsb (String.eqb option) (Select._options self)) then
    ret (self, Raise ValueError)
  else
    let self' :=
      Select.mk (Select._client self) (Select._tasks_data self)
        (Select._options self) (Some option) (Select._task_mapping self)
        (Select._attr_options self) (Some option) in
    match assoc option (Select._task_mapping self) with
    | Some task_info =>
        let task_id := Select.task_id task_info in
        if Select._client self then
          success <- async_run_task task_id now ;;
          let run_status :=
            if success : bool
            then Selected.mkStatus option "success" start_time
                   (Some "任务已启动") None end_time
            else Selected.mkStatus option "failed" start_time
                   None (Some "API调用失败") end_time in
          ret (self', Ok (Some (Selected.mk option task_id timestamp run_status)))
        else ret (self', Raise AttributeError)   (* [None] has no method *)
    | None => ret (self', Ok None)
    end.

Lemma existsb_eqb_In (x : string) l :
  existsb (String.eqb x) l = true <-> In x l.
Proof.
  rewrite existsb_exists. split.
  - intros (y & H & E). apply String.eqb_eq in E. subst. exact H.
  - intros H. exists x. split; [exact H | apply String.eqb_refl].
Qed.

(** Selecting after an update.  Once [_update_options] has returned,
    selecting one of its options always runs a task: after the requests
    of the refresh step, one run request goes out carrying the id of a
    task of the payload that has [isDisabled == 0] and whose script name
    is the option; the stored status is ["success"] exactly when that
    request comes back with status 200 and code 200, and ["failed"]
    otherwise.  Selecting anything that is not an option raises
    [ValueError] before any request, the entity and the client
    untouched. *)
Theorem select_option_runs_listed (repr : json -> string)
    (stored : Datatypes.option json) (self0 self : Select.t) (option : string)
    (now : Z) (t0 t1 t2 : pyfloat) (c : QingLongClient)
    (env : request -> net_outcome) :
  Select._client self0 = true ->
  _update_options repr stored self0 = (self, Ok tt) ->
  let x := run (async_select_option self option now t0 t1 t2 c) env in
  let r := run (_refresh_token_if_needed now c) env in
  (In option (Select._options self) ->
   exists items d info,
     iterate (_extract_tasks_list
                (match stored with
                 | Some tasks => tasks
                 | None => Select._tasks_data self0
                 end)) = Ok items /\
     In (JDict d) items /\ lists repr d option info /\
     let req := run_request (final r) (Select.task_id info) in
     requests x = (requests r ++ [req])%list /\
     exists self' sel,
       returned x = Ok (self', Ok (Some sel)) /\
       Select._current_option self' = Some option /\
       Select._options self' = Select._options self /\
       Selected.task_id sel = Select.task_id info /\
       Selected.status (Selected.status_of_run sel) =
         (if http_ok (env req) && app_code_ok (env req)
          then "success" else "failed")) /\
  (~ In option (Select._options self) ->
   x = (c, Ok (self, Raise ValueError), [])).
Proof.
  intros C E x r. split.
  - intros H.
    destruct (select_options_listed repr stored self0 self C E)
      as (items & I & _ & K & M & _).
    assert (Hm : assoc option (Select._task_mapping self) <> None) by (apply K, H).
    destruct (assoc option (Select._task_mapping self)) as [info |] eqn:A;
      [|congruence].
    destruct (M option info A) as (d & Hd & L).
    exists items, d, info. split; [exact I|]. split; [exact Hd|]. split; [exact L|].
    assert (C' : Select._client self = true).
    { destruct (update_options_done repr stored self0 self C E) as (? & ? & ? & ? & _).
      unfold _update_options in E. rewrite C in E. cbn [negb] in E.
      destruct (iterate _); [|discriminate].
      destruct (add_options _ _ _) as [? [[? ?] | ?]]; [|discriminate].
      destruct (sorted _);
        [|destruct (match Select._current_option self0 with
                    | Some s => String.eqb s ""
                    | None => true
                    end)]; injection E as <-; reflexivity. }
    subst x. unfold async_select_option.
    rewrite (proj2 (existsb_eqb_In option _) H). cbn [negb].
    rewrite A, C'. unfold bind. rewrite run_bind.
    rewrite (run_task_alone c now (Select.task_id info) env). fold r.
    cbn -[run_request].
    rewrite app_nil_r. split; [reflexivity|].
    destruct (http_ok _ && app_code_ok _); eexists; eexists; repeat split.
  - intros H. subst x. unfold async_select_option.
    destruct (existsb (String.eqb option) (Select._options self)) eqn:X.
    + apply existsb_eqb_In in X. contradiction.
    + reflexivity.
Qed.

(** ** The token a task request carries *)

(** Best effort.  When the refresh step of [async_run_task] performs the
    exchange, the run request that follows in the same call goes to the
    same base URL and carries the token of the response if the refresh
    returned [True], and the token the client already held if it returned
    [False]: a failed refresh does not stop the task request. *)
Theorem run_request_carries_token (c : QingLongClient) (now : Z)
    (task_id : string) (env : request -> net_outcome) :
  exchange_due c now ->
  let r := run (_refresh_token_if_needed now c) env in
  let x := run (async_run_task task_id now c) env in
  exists bearer,
    requests x =
      [auth_request c; PutRun (_base_url c ++ API_CRONS_RUN) bearer [task_id]] /\
    (returned r = Ok true -> bearer = token_of (env (auth_request c))) /\
    (returned r = Ok false -> bearer = _token c).
Proof.
  intros D r x. subst x. rewrite (run_task_alone c now task_id env). fold r.
  subst r. destruct (refresh_run_due c now env D) as (res & s' & -> & C).
  cbn [requests returned final fst snd]. unfold run_request.
  destruct C as [_ | e _ _ _ _ | e y _ _ _ _]; cbn -[append].
  - exists (_token c). repeat split. discriminate.
  - exists (token_of (env (auth_request c))). repeat split. discriminate.
  - exists (_token c). repeat split. discriminate.
Qed.

End Selecting.

(** The sample task is listed as ["foo.js"]; selecting it runs task
    ["1"]. *)
Lemma select_option_runs_listed_witness :
  let self0 := Select.mk true (JDict []) [] None [] [] None in
  let self := fst (_update_options (fun _ => "")
                     (Some (tasks_payload [sample_task] 1)) self0) in
  let c := set_token_expires 1702592000 sample_client in
  let env := answering (NetRaise TimeoutError)
                       (NetResponse 200 (Ok (JDict [("code", JInt 200)]))) in
  let x := run (async_select_option self "foo.js" 1700000000 FNan FNan FNan c) env in
  requests x = [run_request c "1"].
Proof.
  intros self0 self c env x.
  destruct (select_option_runs_listed (fun _ => "")
              (Some (tasks_payload [sample_task] 1)) self0 self "foo.js"
              1700000000 FNan FNan FNan c env eq_refl eq_refl) as (W & _).
  destruct (W (or_introl eq_refl)) as (items & d & info & _ & _ & _ & _).
  reflexivity.
Defined.

(** The sample client one hour from expiry; the exchange grants a new
    token. *)
Lemma run_request_carries_token_witness :
  let env := answering
               (NetResponse 200 (Ok (token_body (JStr "new-token") (JInt 1702592000))))
               (NetRaise TimeoutError) in
  requests (run (async_run_task "42" 1700000000 sample_client) env) =
    [auth_request sample_client;
     PutRun "http://192.168.1.10:5700/open/crons/run" (JStr "new-token") ["42"]].
Proof.
  intros env.
  assert (D : exchange_due sample_client 1700000000)
    by (repeat split; vm_compute; discriminate).
  destruct (run_request_carries_token sample_client 1700000000 "42" env D)
    as (bearer & _ & _ & _).
  reflexivity.
Defined.
